(** * Adding a category to capture NA: the imputer and the label encoder

    A shallow embedding of the notebook
    [FE06.4_Adding_a_category_to_capture_NA.ipynb]:

    - [impute_na] (cell 6), which adds to each of two data frames a
      column [variable + '_NA'] where missing cells read ['Missing'];
    - the loop of cell 7 that calls it for several variables;
    - the encoding loop of cell 12, which numbers the labels of a column
      in the order [unique()] meets them in the training frame and
      writes the numbers over the column in both frames.

    The regression of cell 14 is scikit-learn's and works on floating
    point numbers; it is not part of this development. *)

From Stdlib Require Import String List ZArith Bool Lia.
Import ListNotations.

Set Implicit Arguments.

(** ** Cells, series and data frames *)

(** What a cell of an object-dtype column holds.  [NaN] is the marker
    pandas uses for a missing cell (what [isnull] answers [True] on);
    [Str] is a label; [Num] is a Python number (the encoder writes
    integers). *)
Inductive value : Type :=
| NaN
| Str (s : string)
| Num (z : Z).

(** Equality as pandas' hash tables and indexes see it: two missing
    markers are the same key. *)
Definition value_eqb (a b : value) : bool :=
  match a, b with
  | NaN, NaN => true
  | Str s, Str t => String.eqb s t
  | Num x, Num y => Z.eqb x y
  | _, _ => false
  end.

Definition Series : Type := list value.

(** A frame: the row labels (the index) and the columns in their order.
    A column is stored once under its name. *)
Record DataFrame : Type := mkDF {
  index : list Z;
  columns : list (string * Series)
}.

Definition column_names (df : DataFrame) : list string :=
  map fst (columns df).

(** [Series.isnull()], cell by cell. *)
Definition isnull (v : value) : bool :=
  match v with
  | NaN => true
  | _ => false
  end.

Definition series_isnull (s : Series) : list bool := map isnull s.

(** [np.where(cond, x, y)] with a scalar [x] broadcast against the
    array [y]; on an object-dtype [y] the result holds the cells of [y]
    themselves.  That is the dtype of a categorical column (labels and
    missing cells); on an int64 or float64 column numpy would return
    the numbers written as strings, which this definition does not
    follow. *)
Definition np_where (cond : list bool) (x : value) (y : Series) : Series :=
  map (fun cy : bool * value => if fst cy then x else snd cy) (combine cond y).

(** Column lookup by name. *)
Fixpoint lookup_col (key : string) (cols : list (string * Series))
  : option Series :=
  match cols with
  | [] => None
  | (k, c) :: rest => if String.eqb k key then Some c else lookup_col key rest
  end.

(** Column assignment: an existing column is overwritten where it
    stands, a new one is appended after the last column. *)
Fixpoint assign_col (key : string) (s : Series) (cols : list (string * Series))
  : list (string * Series) :=
  match cols with
  | [] => [(key, s)]
  | (k, c) :: rest =>
      if String.eqb k key then (k, s) :: rest
      else (k, c) :: assign_col key s rest
  end.

(** Rectangular frames with distinct column names: what pandas builds
    from a csv file and what [train_test_split] hands over. *)
Definition wf_frame (df : DataFrame) : Prop :=
  NoDup (column_names df) /\
  forall k c, In (k, c) (columns df) -> length c = length (index df).

(** ** The store and the effects of Python code *)

(** The two frames the notebook mutates.  Functions receive references
    to them, so passing the same reference twice aliases. *)
Inductive ref : Type := X_train | X_test.

Record store : Type := mkStore {
  train_frame : DataFrame;
  test_frame : DataFrame
}.

Definition deref (r : ref) (st : store) : DataFrame :=
  match r with
  | X_train => train_frame st
  | X_test => test_frame st
  end.

Definition update (r : ref) (df : DataFrame) (st : store) : store :=
  match r with
  | X_train => mkStore df (test_frame st)
  | X_test => mkStore (train_frame st) df
  end.

(** The only exception the modelled code can raise: pandas' [KeyError]
    for a column name that the frame does not have. *)
Inductive exn : Type :=
| KeyError (key : string).

Inductive outcome (A : Type) : Type :=
| Done (a : A)
| Raised (e : exn).

Arguments Done {A} a.
Arguments Raised {A} e.

(** A computation runs on a store and leaves a store, also when it
    raises. *)
Definition Py (A : Type) : Type := store -> store * outcome A.

Definition ret {A} (a : A) : Py A := fun st => (st, Done a).

Definition bind {A B} (m : Py A) (f : A -> Py B) : Py B :=
  fun st =>
    match m st with
    | (st', Done a) => f a st'
    | (st', Raised e) => (st', Raised e)
    end.

Declare Scope py_scope.
Delimit Scope py_scope with py.
Notation "x <- m ;; k" := (bind m (fun x => k))
  (at level 100, m at next level, right associativity) : py_scope.
Notation "m ;;; k" := (bind m (fun _ => k))
  (at level 100, right associativity) : py_scope.
Open Scope py_scope.

(** [df[key]] *)
Definition getitem (df : ref) (key : string) : Py Series :=
  fun st =>
    match lookup_col key (columns (deref df st)) with
    | Some c => (st, Done c)
    | None => (st, Raised (KeyError key))
    end.

(** [df[key] = arr] *)
Definition setitem (df : ref) (key : string) (arr : Series) : Py unit :=
  fun st =>
    let d := deref df st in
    (update df (mkDF (index d) (assign_col key arr (columns d))) st, Done tt).

(** ** The imputer (cell 6) *)

Definition Missing : value := Str "Missing".

Definition NA_name (variable : string) : string :=
  String.append variable "_NA".

(** One line of [impute_na]:
    [df[variable+'_NA'] = np.where(df[variable].isnull(), 'Missing', df[variable])].
    The right-hand side is evaluated first. *)
Definition impute_frame (df : ref) (variable : string) : Py unit :=
  c <- getitem df variable ;;
  y <- getitem df variable ;;
  setitem df (NA_name variable) (np_where (series_isnull c) Missing y).

Definition impute_na (df_train df_test : ref) (variable : string) : Py unit :=
  impute_frame df_train variable ;;;
  impute_frame df_test variable.

(** The loop of cell 7: [for variable in [...]: impute_na(X_train, X_test, variable)]. *)
Fixpoint impute_all (variables : list string) : Py unit :=
  match variables with
  | [] => ret tt
  | variable :: rest =>
      impute_na X_train X_test variable ;;;
      impute_all rest
  end.

(** ** The encoder (cell 12) *)

Fixpoint mem (v : value) (l : list value) : bool :=
  match l with
  | [] => false
  | x :: r => value_eqb x v || mem v r
  end.

(** [Series.unique()]: a pass over the cells that keeps the values not
    met before, in the order it meets them. *)
Fixpoint unique_from (seen : list value) (s : Series) : list value :=
  match s with
  | [] => seen
  | v :: r =>
      if mem v seen then unique_from seen r
      else unique_from (seen ++ [v]) r
  end.

Definition unique (s : Series) : list value := unique_from [] s.

(** [enumerate(l, start)] *)
Fixpoint enumerate (l : list value) (start : Z) : list (Z * value) :=
  match l with
  | [] => []
  | k :: r => (start, k) :: enumerate r (start + 1)
  end.

(** A Python dict from cells to integers, in insertion order. *)
Definition dict : Type := list (value * Z).

Fixpoint dict_get (d : dict) (k : value) : option Z :=
  match d with
  | [] => None
  | (k', i) :: r => if value_eqb k' k then Some i else dict_get r k
  end.

Fixpoint dict_set (d : dict) (k : value) (i : Z) : dict :=
  match d with
  | [] => [(k, i)]
  | (k', j) :: r =>
      if value_eqb k' k then (k', i) :: r
      else (k', j) :: dict_set r k i
  end.

(** [{k: i for i, k in pairs}] *)
Definition dict_of (pairs : list (Z * value)) : dict :=
  fold_left (fun (d : dict) (ik : Z * value) => dict_set d (snd ik) (fst ik))
    pairs [].

(** [labels_dict = {k:i for i, k in enumerate(X_train[col].unique(), 0)}] *)
Definition labels_dict (train_col : Series) : dict :=
  dict_of (enumerate (unique train_col) 0).

(** [Series.map(d)]: a cell that is no key of [d] becomes [NaN]. *)
Definition map_value (d : dict) (v : value) : value :=
  match dict_get d v with
  | Some i => Num i
  | None => NaN
  end.

Definition series_map (d : dict) (s : Series) : Series := map (map_value d) s.

(** [df.loc[:, col]] and [df.loc[:, col] = s]: the whole column. *)
Definition loc_get (df : ref) (col : string) : Py Series := getitem df col.

Definition loc_set (df : ref) (col : string) (s : Series) : Py unit :=
  setitem df col s.

(** The body of the loop of cell 12 for one column. *)
Definition encode_col (col : string) : Py unit :=
  u <- getitem X_train col ;;
  let d := labels_dict u in
  a <- loc_get X_train col ;;
  loc_set X_train col (series_map d a) ;;;
  b <- loc_get X_test col ;;
  loc_set X_test col (series_map d b).

Fixpoint encode_loop (cols : list string) : Py unit :=
  match cols with
  | [] => ret tt
  | col :: rest => encode_col col ;;; encode_loop rest
  end.

(** ** Abbreviations used by the statements *)

(** The array the imputer computes from a column. *)
Definition derive (c : Series) : Series :=
  np_where (series_isnull c) Missing c.

(** A frame after [df[variable+'_NA'] = derive c]. *)
Definition imputed (variable : string) (df : DataFrame) (c : Series)
  : DataFrame :=
  mkDF (index df) (assign_col (NA_name variable) (derive c) (columns df)).

(** A frame after [df.loc[:, col] = c.map(d)]. *)
Definition encoded (col : string) (d : dict) (df : DataFrame) (c : Series)
  : DataFrame :=
  mkDF (index df) (assign_col col (series_map d c) (columns df)).

Definition has_column (df : DataFrame) (key : string) : bool :=
  match lookup_col key (columns df) with
  | Some _ => true
  | None => false
  end.

Definition is_str (v : value) : bool :=
  match v with
  | Str _ => true
  | _ => false
  end.

(** A categorical column: labels and missing cells only. *)
Definition categorical (c : Series) : Prop :=
  Forall (fun v => v = NaN \/ exists s, v = Str s) c.

(** Position of the first cell equal to [v], counted from [start]. *)
Fixpoint first_index (v : value) (l : list value) (start : Z) : option Z :=
  match l with
  | [] => None
  | x :: r => if value_eqb x v then Some start else first_index v r (start + 1)
  end.

(** The distinct values of a series in first-seen order, said directly:
    a value is kept where it first occurs and dropped from the rest. *)
Fixpoint first_seen (s : Series) : list value :=
  match s with
  | [] => []
  | v :: r => v :: filter (fun x => negb (value_eqb x v)) (first_seen r)
  end.

(** ** Concrete frames *)

Module Ex.

(** Rows [{q:"Gd"}, {q:None}, {q:"TA"}]. *)
Definition train : DataFrame :=
  mkDF [0; 1; 2]%Z [("q"%string, [Str "Gd"; NaN; Str "TA"])].

Definition test : DataFrame :=
  mkDF [3; 4]%Z [("q"%string, [Str "TA"; NaN])].

Definition st : store := mkStore train test.

(** A test row with a label the training rows never show. *)
Definition test_unseen : DataFrame :=
  mkDF [3; 4]%Z [("q_NA"%string, [Str "TA"; Str "Ex"])].

Definition train_NA : DataFrame :=
  mkDF [0; 1; 2]%Z [("q_NA"%string, [Str "Gd"; Str "Missing"; Str "TA"])].

Definition st_unseen : store := mkStore train_NA test_unseen.

(** Frames that already have a column called [q_NA]. *)
Definition train_taken : DataFrame :=
  mkDF [0; 1; 2]%Z
    [("q"%string, [Str "Gd"; NaN; Str "TA"]);
     ("q_NA"%string, [Num 7; Num 8; Num 9])].

Definition test_taken : DataFrame :=
  mkDF [3; 4]%Z
    [("q"%string, [Str "TA"; NaN]);
     ("q_NA"%string, [Num 5; Num 6])].

Definition st_taken : store := mkStore train_taken test_taken.

(** The test frame lacks the column the training frame has. *)
Definition test_other : DataFrame :=
  mkDF [3; 4]%Z [("r"%string, [Str "TA"; NaN])].

Definition st_half : store := mkStore train test_other.

(** Two categorical columns, as the loop of cell 7 meets them. *)
Definition train2 : DataFrame :=
  mkDF [0; 1; 2]%Z
    [("q"%string, [Str "Gd"; NaN; Str "TA"]);
     ("r"%string, [NaN; NaN; Str "Fa"])].

Definition test2 : DataFrame :=
  mkDF [3; 4]%Z
    [("q"%string, [Str "TA"; NaN]);
     ("r"%string, [Str "Po"; Str "Fa"])].

Definition st2 : store := mkStore train2 test2.

(** The second variable is missing from the test frame. *)
Definition test2_short : DataFrame :=
  mkDF [3; 4]%Z [("q"%string, [Str "TA"; NaN])].

Definition st2_short : store := mkStore train2 test2_short.

(** The feature column is missing from the test frame. *)
Definition st_unseen_half : store := mkStore train_NA test_other.

End Ex.

(** ** The checks of cells 8 and 10 *)

(** [sum()] of a boolean series: [True] counts 1. *)
Fixpoint bool_sum (l : list bool) : Z :=
  match l with
  | [] => 0
  | b :: r => (if b then 1 else 0) + bool_sum r
  end.

(** [df.isnull().sum()]: for each column, in the order of the columns,
    the number of missing cells. *)
Definition isnull_sum (df : DataFrame) : list (string * Z) :=
  map (fun kc : string * Series => (fst kc, bool_sum (series_isnull (snd kc))))
    (columns df).

(** Reading an entry of such a result by its label. *)
Fixpoint entry (key : string) (l : list (string * Z)) : option Z :=
  match l with
  | [] => None
  | (k, n) :: rest => if String.eqb k key then Some n else entry key rest
  end.

(** The number of cells equal to [k]. *)
Fixpoint count_eq (k : value) (s : Series) : Z :=
  match s with
  | [] => 0
  | v :: r => (if value_eqb v k then 1 else 0) + count_eq k r
  end.

(** The entries of [df.groupby([col])[col].count()]: one per label of
    the column that is not missing, with the number of rows that bear
    it.  pandas lists the entries by key and [sort_values] of cell 10
    reorders them by count; here they stand in first-seen order, and the
    statements below do not depend on the order. *)
Definition groupby_count (s : Series) : dict :=
  map (fun k => (k, count_eq k s))
    (filter (fun k => negb (isnull k)) (unique s)).

(** The sum of the entries of a dict. *)
Fixpoint dict_total (d : dict) : Z :=
  match d with
  | [] => 0
  | (_, n) :: r => n + dict_total r
  end.

(** ** Strings and cells *)

Lemma append_length (s t : string) :
  String.length (String.append s t) = String.length s + String.length t.
Proof.
  induction s as [| a s IH]; simpl; [reflexivity | now rewrite IH].
Qed.

Lemma NA_name_neq (variable : string) : NA_name variable <> variable.
Proof.
  intro H. apply (f_equal String.length) in H.
  unfold NA_name in H. rewrite append_length in H. simpl in H. lia.
Qed.

Lemma NA_name_inj (v w : string) : NA_name v = NA_name w -> v = w.
Proof.
  unfold NA_name. revert w.
  induction v as [| a v IH]; intros [| b w] H; simpl in *.
  - reflexivity.
  - exfalso. apply (f_equal String.length) in H. simpl in H.
    rewrite append_length in H. simpl in H. lia.
  - exfalso. apply (f_equal String.length) in H. simpl in H.
    rewrite append_length in H. simpl in H. lia.
  - injection H as -> H. f_equal. now apply IH.
Qed.

Lemma value_eqb_eq (a b : value) : value_eqb a b = true <-> a = b.
Proof.
  destruct a, b; simpl; split; intro H; try discriminate; try reflexivity.
  - apply String.eqb_eq in H. now subst.
  - injection H as ->. apply String.eqb_refl.
  - apply Z.eqb_eq in H. now subst.
  - injection H as ->. apply Z.eqb_refl.
Qed.

Lemma value_eqb_refl (a : value) : value_eqb a a = true.
Proof. now apply value_eqb_eq. Qed.

Lemma value_eqb_neq (a b : value) : value_eqb a b = false <-> a <> b.
Proof.
  split.
  - intros H E. apply value_eqb_eq in E. congruence.
  - intro H. destruct (value_eqb a b) eqn:E; [| reflexivity].
    apply value_eqb_eq in E. contradiction.
Qed.

Lemma value_eqb_sym (a b : value) : value_eqb a b = value_eqb b a.
Proof.
  destruct (value_eqb b a) eqn:E.
  - apply value_eqb_eq in E. subst. apply value_eqb_refl.
  - apply value_eqb_neq. apply value_eqb_neq in E. congruence.
Qed.

(** ** Columns of a frame *)

Lemma lookup_assign_same key s cols :
  lookup_col key (assign_col key s cols) = Some s.
Proof.
  induction cols as [| [k c] rest IH]; simpl.
  - now rewrite String.eqb_refl.
  - destruct (String.eqb k key) eqn:E; simpl; rewrite E; auto.
Qed.

Lemma lookup_assign_other key key' s cols :
  key' <> key ->
  lookup_col key' (assign_col key s cols) = lookup_col key' cols.
Proof.
  intro Hne. induction cols as [| [k c] rest IH]; simpl.
  - apply String.eqb_neq in Hne. rewrite String.eqb_sym. now rewrite Hne.
  - destruct (String.eqb k key) eqn:E; simpl.
    + apply String.eqb_eq in E. subst k.
      apply not_eq_sym, String.eqb_neq in Hne. now rewrite Hne.
    + now rewrite IH.
Qed.

Lemma assign_absent key s cols :
  lookup_col key cols = None ->
  assign_col key s cols = cols ++ [(key, s)].
Proof.
  induction cols as [| [k c] rest IH]; simpl; [reflexivity |].
  destruct (String.eqb k key); [discriminate |].
  intro H. now rewrite IH.
Qed.

Lemma assign_present_names key s cols c :
  lookup_col key cols = Some c ->
  map fst (assign_col key s cols) = map fst cols.
Proof.
  induction cols as [| [k c'] rest IH]; simpl; [discriminate |].
  destruct (String.eqb k key); simpl; [reflexivity |].
  intro H. now rewrite IH.
Qed.

Lemma assign_twice key s s' cols :
  assign_col key s (assign_col key s' cols) = assign_col key s cols.
Proof.
  induction cols as [| [k c] rest IH]; simpl.
  - now rewrite String.eqb_refl.
  - destruct (String.eqb k key) eqn:E; simpl; rewrite E; [reflexivity |].
    now rewrite IH.
Qed.

(** ** What [np.where] computes on a column and its own null mask *)

Lemma derive_map (c : Series) :
  derive c = map (fun v => if isnull v then Missing else v) c.
Proof.
  unfold derive, np_where, series_isnull.
  induction c as [| v c IH]; simpl; [reflexivity | now rewrite IH].
Qed.

Lemma derive_length (c : Series) : length (derive c) = length c.
Proof. rewrite derive_map. apply length_map. Qed.

Lemma derive_nth (c : Series) (i : nat) (v : value) :
  nth_error c i = Some v ->
  nth_error (derive c) i = Some (if isnull v then Missing else v).
Proof.
  intro H. rewrite derive_map.
  now rewrite nth_error_map, H.
Qed.

Lemma derive_cells (c : Series) (v : value) :
  In v (derive c) ->
  isnull v = false /\ (v = Missing \/ In v c).
Proof.
  rewrite derive_map. intro H. apply in_map_iff in H.
  destruct H as [x [Hx Hin]]. destruct (isnull x) eqn:E; subst v.
  - split; [reflexivity | now left].
  - split; [exact E | now right].
Qed.

(** ** Running the imputer *)

Lemma impute_frame_done (r : ref) (variable : string) (st : store) (c : Series) :
  lookup_col variable (columns (deref r st)) = Some c ->
  impute_frame r variable st =
  (update r (imputed variable (deref r st) c) st, Done tt).
Proof.
  intro H. unfold impute_frame, bind, getitem, setitem.
  rewrite H. simpl. rewrite H. reflexivity.
Qed.

Lemma impute_frame_raised (r : ref) (variable : string) (st : store) :
  lookup_col variable (columns (deref r st)) = None ->
  impute_frame r variable st = (st, Raised (KeyError variable)).
Proof.
  intro H. unfold impute_frame, bind, getitem. now rewrite H.
Qed.

Lemma impute_na_done (st : store) (variable : string) (ct ce : Series) :
  lookup_col variable (columns (train_frame st)) = Some ct ->
  lookup_col variable (columns (test_frame st)) = Some ce ->
  impute_na X_train X_test variable st =
  (mkStore (imputed variable (train_frame st) ct)
           (imputed variable (test_frame st) ce), Done tt).
Proof.
  intros Ht He. unfold impute_na, bind.
  rewrite (impute_frame_done X_train variable st Ht).
  rewrite (@impute_frame_done X_test variable _ ce); [reflexivity |].
  exact He.
Qed.

Lemma impute_na_raised_train (st : store) (variable : string) :
  lookup_col variable (columns (train_frame st)) = None ->
  impute_na X_train X_test variable st = (st, Raised (KeyError variable)).
Proof.
  intro H. unfold impute_na, bind.
  now rewrite (impute_frame_raised X_train variable st H).
Qed.

Lemma impute_na_raised_test (st : store) (variable : string) (ct : Series) :
  lookup_col variable (columns (train_frame st)) = Some ct ->
  lookup_col variable (columns (test_frame st)) = None ->
  impute_na X_train X_test variable st =
  (mkStore (imputed variable (train_frame st) ct) (test_frame st),
   Raised (KeyError variable)).
Proof.
  intros Ht He. unfold impute_na, bind.
  rewrite (impute_frame_done X_train variable st Ht).
  rewrite impute_frame_raised by exact He. reflexivity.
Qed.

Lemma imputed_lookup_NA variable df c :
  lookup_col (NA_name variable) (columns (imputed variable df c)) =
  Some (derive c).
Proof. apply lookup_assign_same. Qed.

Lemma imputed_lookup_other variable df c key :
  key <> NA_name variable ->
  lookup_col key (columns (imputed variable df c)) =
  lookup_col key (columns df).
Proof. intro H. now apply lookup_assign_other. Qed.

Lemma imputed_derived_cells variable df c :
  exists d,
    lookup_col (NA_name variable) (columns (imputed variable df c)) = Some d /\
    length d = length c /\
    forall i v, nth_error c i = Some v ->
      nth_error d i = Some (if isnull v then Missing else v).
Proof.
  exists (derive c). split; [apply imputed_lookup_NA |].
  split; [apply derive_length | apply derive_nth].
Qed.

Lemma categorical_derive (c : Series) :
  categorical c -> Forall (fun v => is_str v = true) (derive c).
Proof.
  unfold categorical. rewrite derive_map. intro H.
  apply Forall_map. apply Forall_impl with (2 := H).
  intros v [-> | [s ->]]; reflexivity.
Qed.

(** ** The imputer: what the derived column holds *)

(** C1. When both frames have the column [variable], [impute_na] returns
    and the column [variable + "_NA"] of each frame has, row by row, the
    cell ["Missing"] where the original cell is missing and the original
    cell itself everywhere else. *)
Theorem impute_na_sentinel_and_preservation
  (st : store) (variable : string) (ct ce : Series)
  (Htrain : lookup_col variable (columns (train_frame st)) = Some ct)
  (Htest : lookup_col variable (columns (test_frame st)) = Some ce) :
  exists st',
    impute_na X_train X_test variable st = (st', Done tt) /\
    forall (df : ref) (c : Series),
      lookup_col variable (columns (deref df st)) = Some c ->
      exists d,
        lookup_col (NA_name variable) (columns (deref df st')) = Some d /\
        length d = length c /\
        forall i v, nth_error c i = Some v ->
          nth_error d i = Some (if isnull v then Missing else v).
Proof.
  eexists. split; [apply (impute_na_done st variable Htrain Htest) |].
  intros [|] c Hc; simpl in *.
  - assert (c = ct) by congruence. subst c. apply imputed_derived_cells.
  - assert (c = ce) by congruence. subst c. apply imputed_derived_cells.
Qed.

Lemma impute_na_sentinel_and_preservation_witness :
  exists st',
    impute_na X_train X_test "q" Ex.st = (st', Done tt) /\
    forall (df : ref) (c : Series),
      lookup_col "q" (columns (deref df Ex.st)) = Some c ->
      exists d,
        lookup_col (NA_name "q") (columns (deref df st')) = Some d /\
        length d = length c /\
        forall i v, nth_error c i = Some v ->
          nth_error d i = Some (if isnull v then Missing else v).
Proof.
  apply (@impute_na_sentinel_and_preservation Ex.st "q"
           [Str "Gd"; NaN; Str "TA"] [Str "TA"; NaN]); reflexivity.
Defined.

(** C3. After [impute_na] has run, no cell of a derived column is the
    missing marker: each cell is ["Missing"] or a cell of the original
    column, and on a categorical column each cell is a string. *)
Theorem impute_na_completeness
  (st : store) (variable : string) (ct ce : Series)
  (Htrain : lookup_col variable (columns (train_frame st)) = Some ct)
  (Htest : lookup_col variable (columns (test_frame st)) = Some ce) :
  exists st',
    impute_na X_train X_test variable st = (st', Done tt) /\
    forall (df : ref) (c : Series),
      lookup_col variable (columns (deref df st)) = Some c ->
      exists d,
        lookup_col (NA_name variable) (columns (deref df st')) = Some d /\
        Forall (fun v => isnull v = false /\ (v = Missing \/ In v c)) d /\
        (categorical c -> Forall (fun v => is_str v = true) d).
Proof.
  eexists. split; [apply (impute_na_done st variable Htrain Htest) |].
  assert (G : forall df c,
             exists d,
               lookup_col (NA_name variable)
                 (columns (imputed variable df c)) = Some d /\
               Forall (fun v => isnull v = false /\ (v = Missing \/ In v c)) d /\
               (categorical c -> Forall (fun v => is_str v = true) d)).
  { intros df c. exists (derive c). split; [apply imputed_lookup_NA |].
    split; [| apply categorical_derive].
    apply Forall_forall. intros v Hv. now apply derive_cells. }
  intros [|] c Hc; simpl in *.
  - assert (c = ct) by congruence. subst c. apply G.
  - assert (c = ce) by congruence. subst c. apply G.
Qed.

Lemma impute_na_completeness_witness :
  exists st',
    impute_na X_train X_test "q" Ex.st = (st', Done tt) /\
    forall (df : ref) (c : Series),
      lookup_col "q" (columns (deref df Ex.st)) = Some c ->
      exists d,
        lookup_col (NA_name "q") (columns (deref df st')) = Some d /\
        Forall (fun v => isnull v = false /\ (v = Missing \/ In v c)) d /\
        (categorical c -> Forall (fun v => is_str v = true) d).
Proof.
  apply (@impute_na_completeness Ex.st "q"
           [Str "Gd"; NaN; Str "TA"] [Str "TA"; NaN]); reflexivity.
Defined.

(** ** The imputer: what it leaves alone *)

Lemma imputed_frame_effect variable df c :
  lookup_col variable (columns df) = Some c ->
  index (imputed variable df c) = index df /\
  (forall key, key <> NA_name variable ->
     lookup_col key (columns (imputed variable df c)) =
     lookup_col key (columns df)) /\
  lookup_col variable (columns (imputed variable df c)) = Some c /\
  lookup_col (NA_name variable) (columns (imputed variable df c)) =
    Some (derive c) /\
  length (derive c) = length c /\
  (has_column df (NA_name variable) = false ->
     columns (imputed variable df c) =
     columns df ++ [(NA_name variable, derive c)]) /\
  (has_column df (NA_name variable) = true ->
     column_names (imputed variable df c) = column_names df).
Proof.
  intro Hc. split; [reflexivity |].
  split; [intros key Hk; now apply imputed_lookup_other |].
  split.
  { rewrite imputed_lookup_other; [exact Hc |].
    apply not_eq_sym, NA_name_neq. }
  split; [apply imputed_lookup_NA |].
  split; [apply derive_length |].
  unfold has_column, imputed, column_names; simpl.
  destruct (lookup_col (NA_name variable) (columns df)) eqn:E; split;
    intro H; try discriminate.
  - eapply assign_present_names; eauto.
  - now apply assign_absent.
Qed.

(** C4, as the code has it.  When both frames have the column
    [variable], [impute_na] returns; in each frame the index (row count
    and row order) is unchanged, every column not named
    [variable + "_NA"] is unchanged, the original column among them, and
    the derived column has as many cells as the original one.  Where no
    column [variable + "_NA"] existed, exactly one column is appended
    after the others; where one existed, it is overwritten where it
    stands and the column names stay as they were. *)
Theorem impute_na_frame_effect
  (st : store) (variable : string) (ct ce : Series)
  (Htrain : lookup_col variable (columns (train_frame st)) = Some ct)
  (Htest : lookup_col variable (columns (test_frame st)) = Some ce) :
  exists st',
    impute_na X_train X_test variable st = (st', Done tt) /\
    forall (df : ref) (c : Series),
      lookup_col variable (columns (deref df st)) = Some c ->
      index (deref df st') = index (deref df st) /\
      (forall key, key <> NA_name variable ->
         lookup_col key (columns (deref df st')) =
         lookup_col key (columns (deref df st))) /\
      lookup_col variable (columns (deref df st')) = Some c /\
      lookup_col (NA_name variable) (columns (deref df st')) =
        Some (derive c) /\
      length (derive c) = length c /\
      (has_column (deref df st) (NA_name variable) = false ->
         columns (deref df st') =
         columns (deref df st) ++ [(NA_name variable, derive c)]) /\
      (has_column (deref df st) (NA_name variable) = true ->
         column_names (deref df st') = column_names (deref df st)).
Proof.
  eexists. split; [apply (impute_na_done st variable Htrain Htest) |].
  intros [|] c Hc; simpl in *.
  - assert (c = ct) by congruence. subst c. now apply imputed_frame_effect.
  - assert (c = ce) by congruence. subst c. now apply imputed_frame_effect.
Qed.

Lemma impute_na_frame_effect_witness :
  exists st',
    impute_na X_train X_test "q" Ex.st_taken = (st', Done tt) /\
    forall (df : ref) (c : Series),
      lookup_col "q" (columns (deref df Ex.st_taken)) = Some c ->
      index (deref df st') = index (deref df Ex.st_taken) /\
      (forall key, key <> NA_name "q" ->
         lookup_col key (columns (deref df st')) =
         lookup_col key (columns (deref df Ex.st_taken))) /\
      lookup_col "q" (columns (deref df st')) = Some c /\
      lookup_col (NA_name "q") (columns (deref df st')) =
        Some (derive c) /\
      length (derive c) = length c /\
      (has_column (deref df Ex.st_taken) (NA_name "q") = false ->
         columns (deref df st') =
         columns (deref df Ex.st_taken) ++ [(NA_name "q", derive c)]) /\
      (has_column (deref df Ex.st_taken) (NA_name "q") = true ->
         column_names (deref df st') = column_names (deref df Ex.st_taken)).
Proof.
  apply (@impute_na_frame_effect Ex.st_taken "q"
           [Str "Gd"; NaN; Str "TA"] [Str "TA"; NaN]); reflexivity.
Defined.

(** C4 as the specification words it fails on frames that already have
    a column [q_NA]: the call returns, that column no longer holds what
    it held, and no column was added. *)
Lemma impute_na_overwrites_existing_column :
  ~ (forall (st st' : store) (variable : string),
       wf_frame (train_frame st) -> wf_frame (test_frame st) ->
       impute_na X_train X_test variable st = (st', Done tt) ->
       forall df : ref,
         index (deref df st') = index (deref df st) /\
         (forall key c,
            lookup_col key (columns (deref df st)) = Some c ->
            lookup_col key (columns (deref df st')) = Some c) /\
         length (columns (deref df st')) =
         S (length (columns (deref df st)))).
Proof.
  intro H.
  assert (Wt : wf_frame (train_frame Ex.st_taken)).
  { split; simpl.
    - repeat constructor; simpl; intuition discriminate.
    - intros k c [E | [E | []]]; injection E as <- <-; reflexivity. }
  assert (We : wf_frame (test_frame Ex.st_taken)).
  { split; simpl.
    - repeat constructor; simpl; intuition discriminate.
    - intros k c [E | [E | []]]; injection E as <- <-; reflexivity. }
  destruct (H Ex.st_taken _ "q"%string Wt We eq_refl X_train) as [_ [_ L]].
  simpl in L. discriminate L.
Qed.

(** ** The imputer: a column that is not there *)

(** C6. When the column [variable] is absent from the training frame or
    from the test frame, [impute_na] fails: it raises the [KeyError] of
    the missing column name (Python's error for a column that is not
    found). *)
Theorem impute_na_missing_column_raises (st : store) (variable : string) :
  has_column (train_frame st) variable = false \/
  has_column (test_frame st) variable = false ->
  exists st',
    impute_na X_train X_test variable st = (st', Raised (KeyError variable)).
Proof.
  unfold has_column. intros H.
  destruct (lookup_col variable (columns (train_frame st))) as [ct |] eqn:Ht.
  - destruct (lookup_col variable (columns (test_frame st))) as [ce |] eqn:He.
    + destruct H; discriminate.
    + eexists. apply (impute_na_raised_test st variable Ht He).
  - eexists. apply (impute_na_raised_train st variable Ht).
Qed.

Lemma impute_na_missing_column_raises_witness :
  exists st',
    impute_na X_train X_test "q" Ex.st_half = (st', Raised (KeyError "q")).
Proof.
  apply (@impute_na_missing_column_raises Ex.st_half "q").
  right. reflexivity.
Defined.

(** C10. When the training frame has the column [variable] and the test
    frame has not, [impute_na] raises after it has written the derived
    column into the training frame: the store it leaves holds the
    training frame with that column and the test frame as it was. *)
Theorem impute_na_not_atomic (st : store) (variable : string) (ct : Series)
  (Htrain : lookup_col variable (columns (train_frame st)) = Some ct)
  (Htest : lookup_col variable (columns (test_frame st)) = None) :
  exists st',
    impute_na X_train X_test variable st = (st', Raised (KeyError variable)) /\
    lookup_col (NA_name variable) (columns (train_frame st')) =
      Some (derive ct) /\
    test_frame st' = test_frame st /\
    (has_column (train_frame st) (NA_name variable) = false ->
       columns (train_frame st') =
         columns (train_frame st) ++ [(NA_name variable, derive ct)] /\
       train_frame st' <> train_frame st).
Proof.
  eexists. split; [apply (impute_na_raised_test st variable Htrain Htest) |].
  simpl. split; [apply imputed_lookup_NA |]. split; [reflexivity |].
  intro Hno. unfold has_column in Hno.
  destruct (lookup_col (NA_name variable) (columns (train_frame st))) eqn:E;
    [discriminate |].
  split; [now apply assign_absent |].
  intro Heq. rewrite <- Heq in E. rewrite imputed_lookup_NA in E. discriminate.
Qed.

Lemma impute_na_not_atomic_witness :
  exists st',
    impute_na X_train X_test "q" Ex.st_half = (st', Raised (KeyError "q")) /\
    lookup_col (NA_name "q") (columns (train_frame st')) =
      Some (derive [Str "Gd"; NaN; Str "TA"]) /\
    test_frame st' = test_frame Ex.st_half /\
    (has_column (train_frame Ex.st_half) (NA_name "q") = false ->
       columns (train_frame st') =
         columns (train_frame Ex.st_half) ++
         [(NA_name "q", derive [Str "Gd"; NaN; Str "TA"])] /\
       train_frame st' <> train_frame Ex.st_half).
Proof.
  apply (@impute_na_not_atomic Ex.st_half "q" [Str "Gd"; NaN; Str "TA"]);
    reflexivity.
Defined.

(** ** The imputer: running it again *)

Lemma imputed_twice variable df c :
  imputed variable (imputed variable df c) c = imputed variable df c.
Proof.
  unfold imputed; simpl. now rewrite assign_twice.
Qed.

Lemma imputed_keeps_variable variable df c :
  lookup_col variable (columns (imputed variable df c)) =
  lookup_col variable (columns df).
Proof.
  apply imputed_lookup_other. apply not_eq_sym, NA_name_neq.
Qed.

Lemma impute_na_rerun (st : store) (variable : string) :
  impute_na X_train X_test variable
    (fst (impute_na X_train X_test variable st)) =
  impute_na X_train X_test variable st.
Proof.
  destruct (lookup_col variable (columns (train_frame st))) as [ct |] eqn:Ht.
  - destruct (lookup_col variable (columns (test_frame st))) as [ce |] eqn:He.
    + rewrite (impute_na_done st variable Ht He).
      cbn [fst].
      rewrite (@impute_na_done _ variable ct ce); cbn [train_frame test_frame].
      * now rewrite !imputed_twice.
      * now rewrite imputed_keeps_variable.
      * now rewrite imputed_keeps_variable.
    + rewrite (impute_na_raised_test st variable Ht He).
      cbn [fst].
      rewrite (@impute_na_raised_test _ variable ct);
        cbn [train_frame test_frame].
      * now rewrite imputed_twice.
      * now rewrite imputed_keeps_variable.
      * exact He.
  - rewrite (impute_na_raised_train st variable Ht). cbn [fst].
    now apply impute_na_raised_train.
Qed.

(** C8. The derived columns depend on nothing but the cells of the
    original column: two stores whose [variable] columns agree get the
    same derived columns whenever the call returns.  Running
    [impute_na] a second time on the frames the first run left gives
    the same outcome and the same frames as the first run. *)
Theorem impute_na_deterministic_idempotent
  (st1 st2 : store) (variable : string)
  (Htrain : lookup_col variable (columns (train_frame st1)) =
            lookup_col variable (columns (train_frame st2)))
  (Htest : lookup_col variable (columns (test_frame st1)) =
           lookup_col variable (columns (test_frame st2))) :
  (forall st1',
     impute_na X_train X_test variable st1 = (st1', Done tt) ->
     exists st2',
       impute_na X_train X_test variable st2 = (st2', Done tt) /\
       forall df : ref,
         lookup_col (NA_name variable) (columns (deref df st1')) =
         lookup_col (NA_name variable) (columns (deref df st2'))) /\
  impute_na X_train X_test variable
    (fst (impute_na X_train X_test variable st1)) =
  impute_na X_train X_test variable st1.
Proof.
  split; [| apply impute_na_rerun].
  intros st1' Hrun.
  destruct (lookup_col variable (columns (train_frame st1))) as [ct |] eqn:Ht.
  - destruct (lookup_col variable (columns (test_frame st1))) as [ce |] eqn:He.
    + rewrite (impute_na_done st1 variable Ht He) in Hrun.
      injection Hrun as <-.
      eexists. split.
      * apply (@impute_na_done st2 variable ct ce); congruence.
      * intros [|]; cbn [deref train_frame test_frame];
          now rewrite !imputed_lookup_NA.
    + rewrite (impute_na_raised_test st1 variable Ht He) in Hrun.
      discriminate Hrun.
  - rewrite (impute_na_raised_train st1 variable Ht) in Hrun.
    discriminate Hrun.
Qed.

Lemma impute_na_deterministic_idempotent_witness :
  (forall st1',
     impute_na X_train X_test "q" Ex.st = (st1', Done tt) ->
     exists st2',
       impute_na X_train X_test "q" Ex.st_taken = (st2', Done tt) /\
       forall df : ref,
         lookup_col (NA_name "q") (columns (deref df st1')) =
         lookup_col (NA_name "q") (columns (deref df st2'))) /\
  impute_na X_train X_test "q"
    (fst (impute_na X_train X_test "q" Ex.st)) =
  impute_na X_train X_test "q" Ex.st.
Proof.
  apply (@impute_na_deterministic_idempotent Ex.st Ex.st_taken "q");
    reflexivity.
Defined.

(** ** [unique]: distinct values in first-seen order *)

Lemma mem_app (v : value) (l1 l2 : list value) :
  mem v (l1 ++ l2) = mem v l1 || mem v l2.
Proof.
  induction l1 as [| x r IH]; simpl; [reflexivity |].
  now rewrite IH, orb_assoc.
Qed.

Lemma filter_filter (f g : value -> bool) (l : list value) :
  filter f (filter g l) = filter (fun x => g x && f x) l.
Proof.
  induction l as [| x r IH]; simpl; [reflexivity |].
  destruct (g x); simpl; [destruct (f x) |]; now rewrite IH.
Qed.

Lemma unique_from_first_seen (s : Series) :
  forall seen,
    unique_from seen s =
    seen ++ filter (fun x => negb (mem x seen)) (first_seen s).
Proof.
  induction s as [| v r IH]; intro seen; simpl.
  - now rewrite app_nil_r.
  - destruct (mem v seen) eqn:E; simpl.
    + rewrite IH. f_equal. rewrite filter_filter.
      apply filter_ext_in. intros x _.
      destruct (value_eqb x v) eqn:Exv; simpl; [| reflexivity].
      apply value_eqb_eq in Exv. subst x. now rewrite E.
    + rewrite IH, <- app_assoc. simpl. do 2 f_equal.
      rewrite filter_filter. apply filter_ext_in. intros x _.
      rewrite mem_app. simpl. rewrite orb_false_r, negb_orb.
      rewrite (value_eqb_sym v x). apply andb_comm.
Qed.

Lemma unique_first_seen (s : Series) : unique s = first_seen s.
Proof.
  unfold unique. rewrite unique_from_first_seen. simpl.
  induction (first_seen s) as [| x r IH]; simpl; [reflexivity |].
  now rewrite IH.
Qed.

Lemma first_seen_In (s : Series) (v : value) :
  In v (first_seen s) <-> In v s.
Proof.
  induction s as [| x r IH]; simpl; [reflexivity |].
  rewrite filter_In, IH. split.
  - intros [H | [H _]]; auto.
  - intros [H | H]; [now left |].
    destruct (value_eqb v x) eqn:E.
    + apply value_eqb_eq in E. now left.
    + right. split; [exact H | reflexivity].
Qed.

Lemma first_seen_NoDup (s : Series) : NoDup (first_seen s).
Proof.
  induction s as [| x r IH]; simpl; constructor.
  - rewrite filter_In. intros [_ H]. now rewrite value_eqb_refl in H.
  - now apply NoDup_filter.
Qed.

(** ** The dict of labels *)

Lemma dict_set_fresh (d : dict) (k : value) (i : Z) :
  ~ In k (map fst d) -> dict_set d k i = d ++ [(k, i)].
Proof.
  induction d as [| [k' j] r IH]; simpl; intro H; [reflexivity |].
  destruct (value_eqb k' k) eqn:E.
  - apply value_eqb_eq in E. tauto.
  - rewrite IH; tauto.
Qed.

Lemma dict_of_fresh (l : list value) :
  forall (start : Z) (d : dict),
    NoDup l ->
    (forall k, In k l -> ~ In k (map fst d)) ->
    fold_left (fun (d : dict) (ik : Z * value) => dict_set d (snd ik) (fst ik))
      (enumerate l start) d =
    d ++ map (fun ik : Z * value => (snd ik, fst ik)) (enumerate l start).
Proof.
  induction l as [| k r IH]; intros start d Hnd Hfresh; simpl.
  - now rewrite app_nil_r.
  - inversion Hnd as [| ? ? Hk Hr]; subst.
    rewrite dict_set_fresh by (apply Hfresh; now left).
    rewrite IH; [now rewrite <- app_assoc | exact Hr |].
    intros k' Hk' Hin. rewrite map_app, in_app_iff in Hin. simpl in Hin.
    destruct Hin as [Hin | [<- | []]].
    + apply (Hfresh k'); [now right | exact Hin].
    + contradiction.
Qed.

Lemma labels_dict_enumerate (c : Series) :
  labels_dict c =
  map (fun ik : Z * value => (snd ik, fst ik)) (enumerate (first_seen c) 0).
Proof.
  unfold labels_dict, dict_of. rewrite unique_first_seen.
  rewrite dict_of_fresh; [reflexivity | apply first_seen_NoDup |].
  intros k _ [].
Qed.





Lemma dict_get_enumerate (l : list value) (start : Z) (v : value) :
  dict_get (map (fun ik : Z * value => (snd ik, fst ik)) (enumerate l start)) v =
  first_index v l start.
Proof.
  revert start. induction l as [| k r IH]; intro start; simpl;
    [reflexivity |].
  destruct (value_eqb k v); [reflexivity | apply IH].
Qed.

Lemma labels_dict_get (c : Series) (v : value) :
  dict_get (labels_dict c) v = first_index v (first_seen c) 0.
Proof.
  rewrite labels_dict_enumerate. apply dict_get_enumerate.
Qed.

Lemma first_index_Some (l : list value) (v : value) :
  forall start, In v l ->
    exists n, (n < length l)%nat /\ nth_error l n = Some v /\
              first_index v l start = Some (start + Z.of_nat n)%Z.
Proof.
  induction l as [| x r IH]; intros start Hin; simpl; [contradiction |].
  destruct (value_eqb x v) eqn:E.
  - apply value_eqb_eq in E. subst x. exists 0%nat.
    repeat split; [lia | f_equal; lia].
  - destruct Hin as [-> | Hin]; [now rewrite value_eqb_refl in E |].
    destruct (IH (start + 1)%Z Hin) as [n [Hn [Hnth Hfi]]].
    exists (S n). repeat split; [lia | exact Hnth |].
    rewrite Hfi. f_equal. lia.
Qed.

Lemma first_index_None (l : list value) (v : value) :
  forall start, ~ In v l -> first_index v l start = None.
Proof.
  induction l as [| x r IH]; intros start Hnin; simpl; [reflexivity |].
  destruct (value_eqb x v) eqn:E.
  - apply value_eqb_eq in E. subst x. exfalso. apply Hnin. now left.
  - apply IH. intro H. apply Hnin. now right.
Qed.

(** A cell of the training column is written as its position in the
    list of distinct values; any other cell is written as [NaN]. *)
Lemma map_value_seen (c : Series) (v : value) :
  In v c ->
  exists n, (n < length (first_seen c))%nat /\
            nth_error (first_seen c) n = Some v /\
            map_value (labels_dict c) v = Num (Z.of_nat n).
Proof.
  intro H. apply first_seen_In in H.
  destruct (first_index_Some (first_seen c) v 0 H) as [n [Hn [Hnth Hfi]]].
  exists n. repeat split; auto.
  unfold map_value. now rewrite labels_dict_get, Hfi.
Qed.

Lemma map_value_unseen (c : Series) (v : value) :
  ~ In v c -> map_value (labels_dict c) v = NaN.
Proof.
  intro H. unfold map_value. rewrite labels_dict_get.
  rewrite first_index_None; [reflexivity |].
  now rewrite first_seen_In.
Qed.

Lemma map_value_not_str (d : dict) (v : value) : is_str (map_value d v) = false.
Proof. unfold map_value. now destruct (dict_get d v). Qed.

(** ** Running the encoder *)

Lemma encode_col_done (col : string) (st : store) (ct ce : Series) :
  lookup_col col (columns (train_frame st)) = Some ct ->
  lookup_col col (columns (test_frame st)) = Some ce ->
  encode_col col st =
  (mkStore (encoded col (labels_dict ct) (train_frame st) ct)
           (encoded col (labels_dict ct) (test_frame st) ce), Done tt).
Proof.
  intros Ht He.
  unfold encode_col, bind, loc_get, loc_set, getitem, setitem.
  cbn [deref]. rewrite Ht. cbv beta iota. rewrite Ht. cbv beta iota.
  cbn [deref update train_frame test_frame]. rewrite He. reflexivity.
Qed.

Lemma encode_col_raised_train (col : string) (st : store) :
  lookup_col col (columns (train_frame st)) = None ->
  encode_col col st = (st, Raised (KeyError col)).
Proof.
  intro Ht. unfold encode_col, bind, getitem. cbn [deref]. now rewrite Ht.
Qed.

Lemma has_column_encoded col d df c key :
  has_column (encoded col d df c) key = true <->
  key = col \/ has_column df key = true.
Proof.
  unfold has_column, encoded; simpl.
  destruct (String.eqb key col) eqn:E.
  - apply String.eqb_eq in E. subst key. rewrite lookup_assign_same. tauto.
  - apply String.eqb_neq in E. rewrite lookup_assign_other by exact E.
    tauto.
Qed.

Lemma encoded_names col d df c :
  has_column df col = true ->
  column_names (encoded col d df c) = column_names df.
Proof.
  unfold has_column, column_names, encoded; simpl.
  destruct (lookup_col col (columns df)) eqn:E; [| discriminate].
  intros _. eapply assign_present_names; eauto.
Qed.

(** What the loop of cell 12 leaves, for distinct feature columns that
    both frames have. *)
Lemma encode_loop_spec (cols : list string) :
  forall st : store,
    NoDup cols ->
    (forall col, In col cols ->
       has_column (train_frame st) col = true /\
       has_column (test_frame st) col = true) ->
    exists st',
      encode_loop cols st = (st', Done tt) /\
      (forall df, index (deref df st') = index (deref df st)) /\
      (forall df, column_names (deref df st') = column_names (deref df st)) /\
      (forall df key, ~ In key cols ->
         lookup_col key (columns (deref df st')) =
         lookup_col key (columns (deref df st))) /\
      (forall col ct ce, In col cols ->
         lookup_col col (columns (train_frame st)) = Some ct ->
         lookup_col col (columns (test_frame st)) = Some ce ->
         lookup_col col (columns (train_frame st')) =
           Some (series_map (labels_dict ct) ct) /\
         lookup_col col (columns (test_frame st')) =
           Some (series_map (labels_dict ct) ce)).
Proof.
  induction cols as [| col rest IH]; intros st Hnd Hhas.
  - exists st. simpl. unfold ret. repeat split; auto; contradiction.
  - inversion Hnd as [| ? ? Hcol Hrest]; subst.
    destruct (Hhas col (or_introl eq_refl)) as [Ht He].
    unfold has_column in Ht, He.
    destruct (lookup_col col (columns (train_frame st))) as [ct |] eqn:Et;
      [| discriminate].
    destruct (lookup_col col (columns (test_frame st))) as [ce |] eqn:Ee;
      [| discriminate].
    pose proof (encode_col_done col st Et Ee) as Hrun.
    set (st1 := mkStore (encoded col (labels_dict ct) (train_frame st) ct)
                        (encoded col (labels_dict ct) (test_frame st) ce))
      in Hrun.
    assert (Hother : forall df key, key <> col ->
              lookup_col key (columns (deref df st1)) =
              lookup_col key (columns (deref df st))).
    { intros [|] key Hk; simpl; now apply lookup_assign_other. }
    destruct (IH st1 Hrest) as [st' [Hloop [Hidx [Hnames [Hkeep Henc]]]]].
    { intros c Hc. destruct (Hhas c (or_intror Hc)) as [H1 H2].
      split; apply has_column_encoded; now right. }
    exists st'. split.
    { simpl. unfold bind. now rewrite Hrun. }
    split. { intros [|]; now rewrite Hidx. }
    split.
    { intros [|]; rewrite Hnames; simpl; apply encoded_names;
        unfold has_column; [now rewrite Et | now rewrite Ee]. }
    split.
    { intros df key Hk. rewrite Hkeep by (intro; apply Hk; now right).
      apply Hother. intros ->. apply Hk. now left. }
    intros c ct' ce' [<- | Hc] Hct Hce.
    + assert (ct' = ct) by congruence. assert (ce' = ce) by congruence.
      subst ct' ce'.
      pose proof (Hkeep X_train col Hcol) as Kt.
      pose proof (Hkeep X_test col Hcol) as Ke.
      cbn [deref] in Kt, Ke. rewrite Kt, Ke. simpl.
      now rewrite !lookup_assign_same.
    + assert (c <> col) by (intros ->; contradiction).
      apply Henc; [exact Hc | |].
      * exact (eq_trans (Hother X_train c H) Hct).
      * exact (eq_trans (Hother X_test c H) Hce).
Qed.

Lemma series_map_length d c : length (series_map d c) = length c.
Proof. apply length_map. Qed.

Lemma series_map_nth d c i v :
  nth_error c i = Some v ->
  nth_error (series_map d c) i = Some (map_value d v).
Proof. intro H. unfold series_map. now rewrite nth_error_map, H. Qed.

Lemma series_map_not_str d c :
  Forall (fun v => is_str v = false) (series_map d c).
Proof.
  unfold series_map. apply Forall_map, Forall_forall.
  intros v _. apply map_value_not_str.
Qed.

(** ** The encoder: the mapping and its use *)



(** ** The encoder: what it overwrites *)

(** C9. For distinct feature columns that both frames have, the loop of
    cell 12 returns and has written over the feature columns where they
    stand, in the training frame and in the test frame: index and column
    names are as before, every column that is no feature column is
    unchanged, a feature column keeps its length and holds no string
    any more.  Each cell of a training feature column is the integer
    position of its former value in the first-seen order of the
    training column.  Each cell of a test feature column is that same
    integer position when its former value occurs in the training
    column, and [NaN] when it does not. *)
Theorem encode_loop_overwrites_in_place
  (st : store) (cols : list string)
  (Hnd : NoDup cols)
  (Hhas : forall col, In col cols ->
            has_column (train_frame st) col = true /\
            has_column (test_frame st) col = true) :
  exists st',
    encode_loop cols st = (st', Done tt) /\
    (forall df : ref,
       index (deref df st') = index (deref df st) /\
       column_names (deref df st') = column_names (deref df st) /\
       (forall key, ~ In key cols ->
          lookup_col key (columns (deref df st')) =
          lookup_col key (columns (deref df st))) /\
       (forall col c, In col cols ->
          lookup_col col (columns (deref df st)) = Some c ->
          exists d,
            lookup_col col (columns (deref df st')) = Some d /\
            length d = length c /\
            Forall (fun v => is_str v = false) d)) /\
    (forall col ct, In col cols ->
       lookup_col col (columns (train_frame st)) = Some ct ->
       exists d,
         lookup_col col (columns (train_frame st')) = Some d /\
         forall i v, nth_error ct i = Some v ->
           exists n, nth_error (first_seen ct) n = Some v /\
                     nth_error d i = Some (Num (Z.of_nat n))) /\
    (forall col ct ce, In col cols ->
       lookup_col col (columns (train_frame st)) = Some ct ->
       lookup_col col (columns (test_frame st)) = Some ce ->
       exists d,
         lookup_col col (columns (test_frame st')) = Some d /\
         forall i v, nth_error ce i = Some v ->
           (In v ct ->
              exists n, nth_error (first_seen ct) n = Some v /\
                        nth_error d i = Some (Num (Z.of_nat n))) /\
           (~ In v ct -> nth_error d i = Some NaN)).
Proof.
  destruct (encode_loop_spec st Hnd Hhas)
    as [st' [Hrun [Hidx [Hnames [Hkeep Henc]]]]].
  assert (Hboth : forall col, In col cols ->
            exists ct ce,
              lookup_col col (columns (train_frame st)) = Some ct /\
              lookup_col col (columns (test_frame st)) = Some ce).
  { intros col Hin. destruct (Hhas col Hin) as [H1 H2].
    unfold has_column in H1, H2.
    destruct (lookup_col col (columns (train_frame st))) as [ct |];
      [| discriminate].
    destruct (lookup_col col (columns (test_frame st))) as [ce |];
      [| discriminate].
    now exists ct, ce. }
  exists st'. split; [exact Hrun |]. split; [| split].
  - intro df. split; [apply Hidx |]. split; [apply Hnames |].
    split; [apply Hkeep |].
    intros col c Hin Hc.
    destruct (Hboth col Hin) as [ct [ce [Hct Hce]]].
    destruct (Henc col ct ce Hin Hct Hce) as [H1 H2].
    destruct df; cbn [deref] in *.
    + assert (c = ct) by congruence. subst c.
      exists (series_map (labels_dict ct) ct).
      split; [exact H1 |].
      split; [apply series_map_length | apply series_map_not_str].
    + assert (c = ce) by congruence. subst c.
      exists (series_map (labels_dict ct) ce).
      split; [exact H2 |].
      split; [apply series_map_length | apply series_map_not_str].
  - intros col ct Hin Hct.
    destruct (Hboth col Hin) as [ct' [ce [Hct' Hce]]].
    assert (ct' = ct) by congruence. subst ct'.
    destruct (Henc col ct ce Hin Hct Hce) as [H1 _].
    exists (series_map (labels_dict ct) ct). split; [exact H1 |].
    intros i v Hv. rewrite (series_map_nth _ _ _ Hv).
    assert (Hseen : In v ct) by (eapply nth_error_In; eauto).
    destruct (map_value_seen ct v Hseen) as [n [_ [Hn Hm]]].
    exists n. now rewrite Hm.
  - intros col ct ce Hin Hct Hce.
    destruct (Henc col ct ce Hin Hct Hce) as [_ H2].
    exists (series_map (labels_dict ct) ce). split; [exact H2 |].
    intros i v Hv. rewrite (series_map_nth _ _ _ Hv). split.
    + intro Hseen. destruct (map_value_seen ct v Hseen) as [n [_ [Hn Hm]]].
      exists n. now rewrite Hm.
    + intro Hnin. now rewrite map_value_unseen.
Qed.

Lemma encode_loop_overwrites_in_place_witness :
  exists st',
    encode_loop ["q_NA"%string] Ex.st_unseen = (st', Done tt) /\
    (forall df : ref,
       index (deref df st') = index (deref df Ex.st_unseen) /\
       column_names (deref df st') = column_names (deref df Ex.st_unseen) /\
       (forall key, ~ In key ["q_NA"%string] ->
          lookup_col key (columns (deref df st')) =
          lookup_col key (columns (deref df Ex.st_unseen))) /\
       (forall col c, In col ["q_NA"%string] ->
          lookup_col col (columns (deref df Ex.st_unseen)) = Some c ->
          exists d,
            lookup_col col (columns (deref df st')) = Some d /\
            length d = length c /\
            Forall (fun v => is_str v = false) d)) /\
    (forall col ct, In col ["q_NA"%string] ->
       lookup_col col (columns (train_frame Ex.st_unseen)) = Some ct ->
       exists d,
         lookup_col col (columns (train_frame st')) = Some d /\
         forall i v, nth_error ct i = Some v ->
           exists n, nth_error (first_seen ct) n = Some v /\
                     nth_error d i = Some (Num (Z.of_nat n))) /\
    (forall col ct ce, In col ["q_NA"%string] ->
       lookup_col col (columns (train_frame Ex.st_unseen)) = Some ct ->
       lookup_col col (columns (test_frame Ex.st_unseen)) = Some ce ->
       exists d,
         lookup_col col (columns (test_frame st')) = Some d /\
         forall i v, nth_error ce i = Some v ->
           (In v ct ->
              exists n, nth_error (first_seen ct) n = Some v /\
                        nth_error d i = Some (Num (Z.of_nat n))) /\
           (~ In v ct -> nth_error d i = Some NaN)).
Proof.
  apply (@encode_loop_overwrites_in_place Ex.st_unseen ["q_NA"%string]).
  - repeat constructor. simpl. tauto.
  - intros col [<- | []]. split; reflexivity.
Defined.

(** ** The loop of cell 7 *)

Lemma has_column_imputed variable df c key :
  has_column df key = true ->
  has_column (imputed variable df c) key = true.
Proof.
  unfold has_column. intro H.
  destruct (String.eqb key (NA_name variable)) eqn:E.
  - apply String.eqb_eq in E. subst key. now rewrite imputed_lookup_NA.
  - apply String.eqb_neq in E. now rewrite imputed_lookup_other.
Qed.

Lemma imputed_names_fresh variable df c :
  has_column df (NA_name variable) = false ->
  column_names (imputed variable df c) =
  column_names df ++ [NA_name variable].
Proof.
  unfold has_column, imputed, column_names; simpl.
  destruct (lookup_col (NA_name variable) (columns df)) eqn:E;
    [discriminate |].
  intros _. rewrite (assign_absent _ _ _ E), map_app. reflexivity.
Qed.

(** What the loop of cell 7 leaves, for distinct variables that both
    frames have, none of them the derived name of another. *)
Lemma impute_all_spec (variables : list string) :
  forall st : store,
    NoDup variables ->
    (forall v, In v variables ->
       has_column (train_frame st) v = true /\
       has_column (test_frame st) v = true) ->
    (forall v w, In v variables -> In w variables -> w <> NA_name v) ->
    exists st',
      impute_all variables st = (st', Done tt) /\
      (forall df, index (deref df st') = index (deref df st)) /\
      (forall df key,
         (forall v, In v variables -> key <> NA_name v) ->
         lookup_col key (columns (deref df st')) =
         lookup_col key (columns (deref df st))) /\
      (forall df v c, In v variables ->
         lookup_col v (columns (deref df st)) = Some c ->
         lookup_col (NA_name v) (columns (deref df st')) =
           Some (derive c)) /\
      (forall df,
         (forall v, In v variables ->
            has_column (deref df st) (NA_name v) = false) ->
         column_names (deref df st') =
         column_names (deref df st) ++ map NA_name variables).
Proof.
  induction variables as [| x rest IH]; intros st Hnd Hhas Hsep.
  - exists st. simpl. unfold ret.
    repeat split; auto; try contradiction.
    intros df _. now rewrite app_nil_r.
  - inversion Hnd as [| ? ? Hx Hrest]; subst.
    destruct (Hhas x (or_introl eq_refl)) as [Ht He].
    unfold has_column in Ht, He.
    destruct (lookup_col x (columns (train_frame st))) as [ct |] eqn:Et;
      [| discriminate].
    destruct (lookup_col x (columns (test_frame st))) as [ce |] eqn:Ee;
      [| discriminate].
    pose proof (impute_na_done st x Et Ee) as Hrun.
    set (st1 := mkStore (imputed x (train_frame st) ct)
                        (imputed x (test_frame st) ce)) in Hrun.
    assert (Hother : forall df key, key <> NA_name x ->
              lookup_col key (columns (deref df st1)) =
              lookup_col key (columns (deref df st))).
    { intros [|] key Hk; cbn [deref st1 train_frame test_frame];
        now apply imputed_lookup_other. }
    assert (Hfresh : forall v, In v rest -> NA_name v <> NA_name x).
    { intros v Hv E. apply NA_name_inj in E. subst v. contradiction. }
    destruct (IH st1 Hrest) as [st' [Hloop [Hidx [Hkeep [Hder Hlen]]]]].
    { intros v Hv. destruct (Hhas v (or_intror Hv)) as [H1 H2].
      split; apply has_column_imputed; assumption. }
    { intros v w Hv Hw. apply Hsep; now right. }
    exists st'. split.
    { simpl. unfold bind. now rewrite Hrun. }
    split. { intros [|]; now rewrite Hidx. }
    split.
    { intros df key Hk.
      rewrite Hkeep by (intros v Hv; apply Hk; now right).
      apply Hother. apply Hk. now left. }
    split.
    { intros df v c [<- | Hv] Hc.
      - rewrite Hkeep by (intros v Hv; apply not_eq_sym; now apply Hfresh).
        destruct df; cbn [deref st1 train_frame test_frame] in *.
        + assert (c = ct) by congruence. subst c. apply imputed_lookup_NA.
        + assert (c = ce) by congruence. subst c. apply imputed_lookup_NA.
      - apply Hder; [exact Hv |].
        rewrite Hother; [exact Hc |].
        apply Hsep; [now left | now right]. }
    intros df Hfree. rewrite Hlen.
    + assert (L : column_names (deref df st1) =
                  column_names (deref df st) ++ [NA_name x]).
      { destruct df; cbn [deref st1 train_frame test_frame];
          apply imputed_names_fresh; apply (Hfree x); now left. }
      rewrite L, <- app_assoc. reflexivity.
    + intros v Hv. unfold has_column.
      rewrite Hother by now apply Hfresh.
      apply (Hfree v). now right.
Qed.

(** X1. Calling [impute_na] for several distinct variables that both
    frames have, none of them the derived name of another: the loop
    returns; every variable gets its derived column, computed from the
    column as it was before the loop; columns that bear no derived name
    are untouched; and where no derived name was taken, the derived
    columns are appended after the old ones in the order of the
    variables, one column per variable. *)
Theorem impute_all_one_column_per_variable
  (variables : list string) (st : store)
  (Hnd : NoDup variables)
  (Hhas : forall v, In v variables ->
            has_column (train_frame st) v = true /\
            has_column (test_frame st) v = true)
  (Hsep : forall v w, In v variables -> In w variables -> w <> NA_name v) :
  exists st',
    impute_all variables st = (st', Done tt) /\
    (forall df, index (deref df st') = index (deref df st)) /\
    (forall df key,
       (forall v, In v variables -> key <> NA_name v) ->
       lookup_col key (columns (deref df st')) =
       lookup_col key (columns (deref df st))) /\
    (forall df v c, In v variables ->
       lookup_col v (columns (deref df st)) = Some c ->
       lookup_col (NA_name v) (columns (deref df st')) =
         Some (derive c)) /\
    (forall df,
       (forall v, In v variables ->
          has_column (deref df st) (NA_name v) = false) ->
       column_names (deref df st') =
         column_names (deref df st) ++ map NA_name variables /\
       length (columns (deref df st')) =
         length (columns (deref df st)) + length variables).
Proof.
  destruct (impute_all_spec st Hnd Hhas Hsep)
    as [st' [Hrun [Hidx [Hkeep [Hder Hnames]]]]].
  exists st'. repeat split; auto.
  pose proof (Hnames df H) as N.
  apply (f_equal (@length string)) in N.
  unfold column_names in N.
  now rewrite length_app, !length_map in N.
Qed.

Lemma impute_all_one_column_per_variable_witness :
  exists st',
    impute_all ["q"%string; "r"%string] Ex.st2 = (st', Done tt) /\
    (forall df, index (deref df st') = index (deref df Ex.st2)) /\
    (forall df key,
       (forall v, In v ["q"%string; "r"%string] -> key <> NA_name v) ->
       lookup_col key (columns (deref df st')) =
       lookup_col key (columns (deref df Ex.st2))) /\
    (forall df v c, In v ["q"%string; "r"%string] ->
       lookup_col v (columns (deref df Ex.st2)) = Some c ->
       lookup_col (NA_name v) (columns (deref df st')) =
         Some (derive c)) /\
    (forall df,
       (forall v, In v ["q"%string; "r"%string] ->
          has_column (deref df Ex.st2) (NA_name v) = false) ->
       column_names (deref df st') =
         column_names (deref df Ex.st2) ++
         map NA_name ["q"%string; "r"%string] /\
       length (columns (deref df st')) =
         length (columns (deref df Ex.st2)) +
         length ["q"%string; "r"%string]).
Proof.
  apply (@impute_all_one_column_per_variable ["q"%string; "r"%string] Ex.st2).
  - repeat constructor; simpl; intuition discriminate.
  - intros v [<- | [<- | []]]; split; reflexivity.
  - intros v w [<- | [<- | []]] [<- | [<- | []]]; discriminate.
Defined.

(** Running the loop over a list in two parts. *)
Lemma impute_all_app (pre rest : list string) (st : store) :
  impute_all (pre ++ rest) st =
  match impute_all pre st with
  | (st1, Done _) => impute_all rest st1
  | (st1, Raised e) => (st1, Raised e)
  end.
Proof.
  revert st. induction pre as [| x pre IH]; intro st; simpl.
  - reflexivity.
  - unfold bind.
    destruct (impute_na X_train X_test x st) as [st1 [[] | e]];
      [apply IH | reflexivity].
Qed.

(** X2. When the loop of cell 7 meets a variable that the training
    frame or the test frame lacks, it raises the [KeyError] of that
    variable and stops: the variables before it have their derived
    columns in both frames, the test frame has no column written for
    the failing variable, and no column is written for the variables
    after it. *)
Theorem impute_all_stops_at_missing_variable
  (pre post : list string) (v : string) (st : store)
  (Hnd : NoDup pre)
  (Hhas : forall u, In u pre ->
            has_column (train_frame st) u = true /\
            has_column (test_frame st) u = true)
  (Hsep : forall u w, In u pre -> In w pre -> w <> NA_name u)
  (Hv : forall u, In u pre -> v <> NA_name u)
  (Hmiss : has_column (train_frame st) v = false \/
           has_column (test_frame st) v = false) :
  exists st',
    impute_all (pre ++ v :: post) st = (st', Raised (KeyError v)) /\
    (forall df u c, In u pre ->
       lookup_col u (columns (deref df st)) = Some c ->
       lookup_col (NA_name u) (columns (deref df st')) = Some (derive c)) /\
    (forall df key,
       (forall u, In u (pre ++ [v]) -> key <> NA_name u) ->
       lookup_col key (columns (deref df st')) =
       lookup_col key (columns (deref df st))) /\
    lookup_col (NA_name v) (columns (test_frame st')) =
    lookup_col (NA_name v) (columns (test_frame st)).
Proof.
  destruct (impute_all_spec st Hnd Hhas Hsep)
    as [st1 [Hrun [_ [Hkeep [Hder _]]]]].
  assert (Hvpre : ~ In v pre).
  { intro Hin. destruct (Hhas v Hin) as [H1 H2].
    destruct Hmiss as [H | H]; congruence. }
  assert (Hfresh : forall u, In u pre -> NA_name v <> NA_name u).
  { intros u Hu E. apply NA_name_inj in E. subst u. contradiction. }
  assert (Hsame : forall df,
            lookup_col v (columns (deref df st1)) =
            lookup_col v (columns (deref df st))).
  { intro df. apply Hkeep. exact Hv. }
  assert (Hstep : exists st',
            impute_na X_train X_test v st1 = (st', Raised (KeyError v)) /\
            test_frame st' = test_frame st1 /\
            forall key, key <> NA_name v ->
              lookup_col key (columns (train_frame st')) =
              lookup_col key (columns (train_frame st1))).
  { destruct (lookup_col v (columns (train_frame st1))) as [ct |] eqn:Et.
    - destruct (lookup_col v (columns (test_frame st1))) as [ce |] eqn:Ee.
      + exfalso. unfold has_column in Hmiss.
        pose proof (Hsame X_train) as St. pose proof (Hsame X_test) as Se.
        cbn [deref] in St, Se. rewrite <- St, <- Se, Et, Ee in Hmiss.
        destruct Hmiss; discriminate.
      + eexists. split; [apply (impute_na_raised_test st1 v Et Ee) |].
        split; [reflexivity |].
        intros key Hk. now apply imputed_lookup_other.
    - eexists. split; [apply (impute_na_raised_train st1 v Et) |].
      split; reflexivity. }
  destruct Hstep as [st' [Hfail [Htest Htrain]]].
  exists st'. split.
  { rewrite impute_all_app, Hrun. simpl. unfold bind. now rewrite Hfail. }
  assert (Hthrough : forall df key, key <> NA_name v ->
            lookup_col key (columns (deref df st')) =
            lookup_col key (columns (deref df st1))).
  { intros [|] key Hk; cbn [deref];
      [now apply Htrain | now rewrite Htest]. }
  split.
  { intros df u c Hu Hc. rewrite Hthrough.
    - now apply Hder.
    - apply not_eq_sym. now apply Hfresh. }
  split.
  { intros df key Hk. rewrite Hthrough.
    - apply Hkeep. intros u Hu. apply Hk. apply in_or_app. now left.
    - apply Hk. apply in_or_app. right. now left. }
  rewrite Htest. apply (Hkeep X_test).
  intros u Hu. now apply Hfresh.
Qed.

Lemma impute_all_stops_at_missing_variable_witness :
  exists st',
    impute_all (["q"%string] ++ "r"%string :: ["s"%string]) Ex.st2_short =
      (st', Raised (KeyError "r")) /\
    (forall df u c, In u ["q"%string] ->
       lookup_col u (columns (deref df Ex.st2_short)) = Some c ->
       lookup_col (NA_name u) (columns (deref df st')) = Some (derive c)) /\
    (forall df key,
       (forall u, In u (["q"%string] ++ ["r"%string]) -> key <> NA_name u) ->
       lookup_col key (columns (deref df st')) =
       lookup_col key (columns (deref df Ex.st2_short))) /\
    lookup_col (NA_name "r") (columns (test_frame st')) =
    lookup_col (NA_name "r") (columns (test_frame Ex.st2_short)).
Proof.
  apply (@impute_all_stops_at_missing_variable
           ["q"%string] ["s"%string] "r" Ex.st2_short).
  - repeat constructor; simpl; tauto.
  - intros u [<- | []]; split; reflexivity.
  - intros u w [<- | []] [<- | []]; discriminate.
  - intros u [<- | []]; discriminate.
  - right. reflexivity.
Defined.

(** ** The imputer applied to its own output, and what it keeps apart *)

Lemma derive_twice (c : Series) : derive (derive c) = derive c.
Proof.
  rewrite !derive_map, map_map. apply map_ext.
  intro v. now destruct v.
Qed.

(** X3. Imputing a derived column changes nothing: after [impute_na]
    for [variable] and then for [variable + "_NA"], the column
    [variable + "_NA_NA"] holds the same cells as [variable + "_NA"],
    in both frames. *)
Theorem impute_na_of_derived_column
  (st : store) (variable : string) (ct ce : Series)
  (Htrain : lookup_col variable (columns (train_frame st)) = Some ct)
  (Htest : lookup_col variable (columns (test_frame st)) = Some ce) :
  exists st',
    (impute_na X_train X_test variable ;;;
     impute_na X_train X_test (NA_name variable)) st = (st', Done tt) /\
    forall (df : ref) (c : Series),
      lookup_col variable (columns (deref df st)) = Some c ->
      lookup_col (NA_name variable) (columns (deref df st')) =
        Some (derive c) /\
      lookup_col (NA_name (NA_name variable)) (columns (deref df st')) =
        Some (derive c).
Proof.
  pose proof (impute_na_done st variable Htrain Htest) as Hrun1.
  set (st1 := mkStore (imputed variable (train_frame st) ct)
                      (imputed variable (test_frame st) ce)) in Hrun1.
  assert (Ht1 : lookup_col (NA_name variable) (columns (train_frame st1)) =
                Some (derive ct)) by apply imputed_lookup_NA.
  assert (He1 : lookup_col (NA_name variable) (columns (test_frame st1)) =
                Some (derive ce)) by apply imputed_lookup_NA.
  pose proof (impute_na_done st1 (NA_name variable) Ht1 He1) as Hrun2.
  eexists. split.
  { unfold bind. rewrite Hrun1. exact Hrun2. }
  intros [|] c Hc; cbn [deref train_frame test_frame] in *.
  - assert (c = ct) by congruence. subst c. split.
    + rewrite imputed_lookup_other by (apply not_eq_sym, NA_name_neq).
      exact Ht1.
    + rewrite imputed_lookup_NA. now rewrite derive_twice.
  - assert (c = ce) by congruence. subst c. split.
    + rewrite imputed_lookup_other by (apply not_eq_sym, NA_name_neq).
      exact He1.
    + rewrite imputed_lookup_NA. now rewrite derive_twice.
Qed.

Lemma impute_na_of_derived_column_witness :
  exists st',
    (impute_na X_train X_test "q" ;;;
     impute_na X_train X_test (NA_name "q")) Ex.st = (st', Done tt) /\
    forall (df : ref) (c : Series),
      lookup_col "q" (columns (deref df Ex.st)) = Some c ->
      lookup_col (NA_name "q") (columns (deref df st')) =
        Some (derive c) /\
      lookup_col (NA_name (NA_name "q")) (columns (deref df st')) =
        Some (derive c).
Proof.
  apply (@impute_na_of_derived_column Ex.st "q"
           [Str "Gd"; NaN; Str "TA"] [Str "TA"; NaN]); reflexivity.
Defined.

(** X4. On a categorical column (labels and missing cells) that does
    not already use the label ["Missing"], the array
    [np.where(c.isnull(), 'Missing', c)] marks exactly the missing
    rows, and it determines the column: two such categorical columns
    with the same derived array are the same column. *)
Theorem np_where_keeps_columns_apart (c : Series)
  (Hcat : categorical c)
  (Hfree : ~ In Missing c) :
  (forall i v d,
     nth_error c i = Some v ->
     nth_error (np_where (series_isnull c) Missing c) i = Some d ->
     (d = Missing <-> isnull v = true)) /\
  (forall c' : Series,
     categorical c' ->
     ~ In Missing c' ->
     np_where (series_isnull c') Missing c' =
     np_where (series_isnull c) Missing c ->
     c' = c).
Proof.
  clear Hcat. fold (derive c). split.
  - intros i v d Hv Hd. rewrite (derive_nth c i Hv) in Hd.
    injection Hd as <-. destruct (isnull v) eqn:E.
    + tauto.
    + split; [| discriminate]. intros ->. exfalso. apply Hfree.
      eapply nth_error_In; eauto.
  - intros c' _ Hfree' Heq. fold (derive c') in Heq.
    rewrite !derive_map in Heq.
    revert c Hfree Heq.
    induction c' as [| x r IH]; intros [| y s] Hfree Heq; simpl in *;
      try discriminate; [reflexivity |].
    injection Heq as Hxy Hrs. f_equal.
    + destruct x, y; simpl in *; unfold Missing in *; try congruence.
      * exfalso. apply Hfree. left. congruence.
      * exfalso. apply Hfree'. left. congruence.
    + apply IH; [tauto | tauto | exact Hrs].
Qed.

Lemma np_where_keeps_columns_apart_witness :
  (forall i v d,
     nth_error [Str "Gd"; NaN; Str "TA"] i = Some v ->
     nth_error (np_where (series_isnull [Str "Gd"; NaN; Str "TA"]) Missing
                  [Str "Gd"; NaN; Str "TA"]) i = Some d ->
     (d = Missing <-> isnull v = true)) /\
  (forall c' : Series,
     categorical c' ->
     ~ In Missing c' ->
     np_where (series_isnull c') Missing c' =
     np_where (series_isnull [Str "Gd"; NaN; Str "TA"]) Missing
       [Str "Gd"; NaN; Str "TA"] ->
     c' = [Str "Gd"; NaN; Str "TA"]).
Proof.
  apply (@np_where_keeps_columns_apart [Str "Gd"; NaN; Str "TA"]).
  - apply Forall_cons; [right; now exists "Gd"%string |].
    apply Forall_cons; [now left |].
    apply Forall_cons; [right; now exists "TA"%string |].
    apply Forall_nil.
  - simpl. intros [E | [E | [E | []]]]; discriminate E.
Defined.

(** ** The check of cell 8 *)

Lemma entry_isnull_sum (df : DataFrame) (key : string) :
  entry key (isnull_sum df) =
  option_map (fun c => bool_sum (series_isnull c))
    (lookup_col key (columns df)).
Proof.
  unfold isnull_sum. induction (columns df) as [| [k c] rest IH]; simpl.
  - reflexivity.
  - destruct (String.eqb k key); [reflexivity | exact IH].
Qed.

Lemma derive_no_null (c : Series) : bool_sum (series_isnull (derive c)) = 0%Z.
Proof.
  rewrite derive_map. unfold series_isnull.
  induction c as [| v r IH]; simpl; [reflexivity |].
  rewrite IH. now destruct v.
Qed.

(** X5. What [df.isnull().sum()] shows after [impute_na]: in each
    frame the derived column counts no missing cell, and every other
    column counts what it counted before. *)
Theorem impute_na_null_counts
  (st : store) (variable : string) (ct ce : Series)
  (Htrain : lookup_col variable (columns (train_frame st)) = Some ct)
  (Htest : lookup_col variable (columns (test_frame st)) = Some ce) :
  exists st',
    impute_na X_train X_test variable st = (st', Done tt) /\
    forall df : ref,
      entry (NA_name variable) (isnull_sum (deref df st')) = Some 0%Z /\
      forall key, key <> NA_name variable ->
        entry key (isnull_sum (deref df st')) =
        entry key (isnull_sum (deref df st)).
Proof.
  eexists. split; [apply (impute_na_done st variable Htrain Htest) |].
  intros [|]; cbn [deref train_frame test_frame]; split.
  - now rewrite entry_isnull_sum, imputed_lookup_NA; simpl;
      rewrite derive_no_null.
  - intros key Hk. now rewrite !entry_isnull_sum, imputed_lookup_other.
  - now rewrite entry_isnull_sum, imputed_lookup_NA; simpl;
      rewrite derive_no_null.
  - intros key Hk. now rewrite !entry_isnull_sum, imputed_lookup_other.
Qed.

Lemma impute_na_null_counts_witness :
  exists st',
    impute_na X_train X_test "q" Ex.st = (st', Done tt) /\
    forall df : ref,
      entry (NA_name "q") (isnull_sum (deref df st')) = Some 0%Z /\
      forall key, key <> NA_name "q" ->
        entry key (isnull_sum (deref df st')) =
        entry key (isnull_sum (deref df Ex.st)).
Proof.
  apply (@impute_na_null_counts Ex.st "q"
           [Str "Gd"; NaN; Str "TA"] [Str "TA"; NaN]); reflexivity.
Defined.

(** ** The encoder: the codes it hands out *)

Lemma map_value_code (c : Series) (v : value) (n : nat) :
  nth_error (first_seen c) n = Some v ->
  map_value (labels_dict c) v = Num (Z.of_nat n).
Proof.
  intro Hn.
  assert (Hin : In v c).
  { apply first_seen_In. eapply nth_error_In; eauto. }
  destruct (map_value_seen c v Hin) as [m [Hm [Hnth Hval]]].
  assert (m = n).
  { apply (proj1 (NoDup_nth_error (first_seen c)) (first_seen_NoDup c));
      [exact Hm | congruence]. }
  now subst m.
Qed.

(** X6. After the loop of cell 12 the cells of a training feature
    column are exactly the integers 0, 1, ..., n-1, where n is the
    number of distinct values the column had: every cell is one of
    them and each of them occurs. *)
Theorem encode_loop_codes_fill_range
  (st : store) (cols : list string)
  (Hnd : NoDup cols)
  (Hhas : forall col, In col cols ->
            has_column (train_frame st) col = true /\
            has_column (test_frame st) col = true) :
  exists st',
    encode_loop cols st = (st', Done tt) /\
    forall col ct, In col cols ->
      lookup_col col (columns (train_frame st)) = Some ct ->
      exists d,
        lookup_col col (columns (train_frame st')) = Some d /\
        forall x, In x d <->
          exists i, x = Num i /\
                    (0 <= i < Z.of_nat (length (unique ct)))%Z.
Proof.
  destruct (encode_loop_spec st Hnd Hhas) as [st' [Hrun [_ [_ [_ Henc]]]]].
  exists st'. split; [exact Hrun |].
  intros col ct Hin Hct.
  destruct (Hhas col Hin) as [_ He]. unfold has_column in He.
  destruct (lookup_col col (columns (test_frame st))) as [ce |] eqn:Ee;
    [| discriminate].
  destruct (Henc col ct ce Hin Hct Ee) as [H1 _].
  exists (series_map (labels_dict ct) ct). split; [exact H1 |].
  rewrite unique_first_seen. intro x. unfold series_map. rewrite in_map_iff.
  split.
  - intros [v [Hv Hvin]].
    destruct (map_value_seen ct v Hvin) as [n [Hn [_ Hval]]].
    exists (Z.of_nat n). split; [congruence | lia].
  - intros [i [-> Hi]].
    destruct (nth_error (first_seen ct) (Z.to_nat i)) as [v |] eqn:Env.
    + exists v. split.
      * rewrite (map_value_code ct _ Env). f_equal. lia.
      * apply first_seen_In. eapply nth_error_In; eauto.
    + apply nth_error_None in Env. lia.
Qed.

Lemma encode_loop_codes_fill_range_witness :
  exists st',
    encode_loop ["q_NA"%string] Ex.st_unseen = (st', Done tt) /\
    forall col ct, In col ["q_NA"%string] ->
      lookup_col col (columns (train_frame Ex.st_unseen)) = Some ct ->
      exists d,
        lookup_col col (columns (train_frame st')) = Some d /\
        forall x, In x d <->
          exists i, x = Num i /\
                    (0 <= i < Z.of_nat (length (unique ct)))%Z.
Proof.
  apply (@encode_loop_codes_fill_range Ex.st_unseen ["q_NA"%string]).
  - repeat constructor. simpl. tauto.
  - intros col [<- | []]. split; reflexivity.
Defined.

(** X7. The loop of cell 12 gives two rows of a training feature
    column the same code exactly when they held the same value. *)
Theorem encode_loop_codes_tell_labels_apart
  (st : store) (cols : list string)
  (Hnd : NoDup cols)
  (Hhas : forall col, In col cols ->
            has_column (train_frame st) col = true /\
            has_column (test_frame st) col = true) :
  exists st',
    encode_loop cols st = (st', Done tt) /\
    forall col ct, In col cols ->
      lookup_col col (columns (train_frame st)) = Some ct ->
      exists d,
        lookup_col col (columns (train_frame st')) = Some d /\
        forall i j v w,
          nth_error ct i = Some v -> nth_error ct j = Some w ->
          (nth_error d i = nth_error d j <-> v = w).
Proof.
  destruct (encode_loop_spec st Hnd Hhas) as [st' [Hrun [_ [_ [_ Henc]]]]].
  exists st'. split; [exact Hrun |].
  intros col ct Hin Hct.
  destruct (Hhas col Hin) as [_ He]. unfold has_column in He.
  destruct (lookup_col col (columns (test_frame st))) as [ce |] eqn:Ee;
    [| discriminate].
  destruct (Henc col ct ce Hin Hct Ee) as [H1 _].
  exists (series_map (labels_dict ct) ct). split; [exact H1 |].
  intros i j v w Hv Hw.
  rewrite (series_map_nth _ _ _ Hv), (series_map_nth _ _ _ Hw).
  split; [| now intros ->].
  intro Heq.
  destruct (map_value_seen ct v (nth_error_In _ _ Hv)) as [n [_ [Hn Hvn]]].
  destruct (map_value_seen ct w (nth_error_In _ _ Hw)) as [m [_ [Hm Hwm]]].
  rewrite Hvn, Hwm in Heq. injection Heq as Heq.
  apply Nat2Z.inj in Heq. subst m. congruence.
Qed.

Lemma encode_loop_codes_tell_labels_apart_witness :
  exists st',
    encode_loop ["q_NA"%string] Ex.st_unseen = (st', Done tt) /\
    forall col ct, In col ["q_NA"%string] ->
      lookup_col col (columns (train_frame Ex.st_unseen)) = Some ct ->
      exists d,
        lookup_col col (columns (train_frame st')) = Some d /\
        forall i j v w,
          nth_error ct i = Some v -> nth_error ct j = Some w ->
          (nth_error d i = nth_error d j <-> v = w).
Proof.
  apply (@encode_loop_codes_tell_labels_apart Ex.st_unseen ["q_NA"%string]).
  - repeat constructor. simpl. tauto.
  - intros col [<- | []]. split; reflexivity.
Defined.

(** ** The encoder: a feature column that is not there *)

(** X8. When the training frame or the test frame lacks the first
    feature column, the loop of cell 12 raises the [KeyError] of that
    column and goes no further.  The test frame is as it was and so is
    every other column of the training frame; but if the training
    frame had the column, it has already been overwritten with the
    codes.  If the training frame lacked it, nothing was written. *)
Theorem encode_loop_missing_column
  (st : store) (col : string) (rest : list string)
  (Hmiss : has_column (train_frame st) col = false \/
           has_column (test_frame st) col = false) :
  exists st',
    encode_loop (col :: rest) st = (st', Raised (KeyError col)) /\
    test_frame st' = test_frame st /\
    index (train_frame st') = index (train_frame st) /\
    (forall key, key <> col ->
       lookup_col key (columns (train_frame st')) =
       lookup_col key (columns (train_frame st))) /\
    (forall ct, lookup_col col (columns (train_frame st)) = Some ct ->
       lookup_col col (columns (train_frame st')) =
       Some (series_map (labels_dict ct) ct)) /\
    (has_column (train_frame st) col = false -> st' = st).
Proof.
  unfold has_column in Hmiss.
  destruct (lookup_col col (columns (train_frame st))) as [ct |] eqn:Et.
  - destruct (lookup_col col (columns (test_frame st))) as [ce |] eqn:Ee;
      [destruct Hmiss; discriminate |].
    exists (mkStore (encoded col (labels_dict ct) (train_frame st) ct)
                    (test_frame st)).
    split.
    { simpl. unfold bind, encode_col, bind, loc_get, loc_set, getitem, setitem.
      cbn [deref]. rewrite Et. cbv beta iota. rewrite Et. cbv beta iota.
      cbn [deref update train_frame test_frame]. rewrite Ee. reflexivity. }
    cbn [train_frame test_frame].
    split; [reflexivity |]. split; [reflexivity |].
    split; [intros key Hk; now apply lookup_assign_other |].
    split.
    + intros ct' [= <-]. apply lookup_assign_same.
    + unfold has_column. now rewrite Et.
  - exists st. split.
    { simpl. unfold bind. now rewrite (encode_col_raised_train col st Et). }
    repeat split; auto. discriminate.
Qed.

Lemma encode_loop_missing_column_witness :
  exists st',
    encode_loop ("q_NA"%string :: ["r"%string]) Ex.st_unseen_half =
      (st', Raised (KeyError "q_NA")) /\
    test_frame st' = test_frame Ex.st_unseen_half /\
    index (train_frame st') = index (train_frame Ex.st_unseen_half) /\
    (forall key, key <> "q_NA"%string ->
       lookup_col key (columns (train_frame st')) =
       lookup_col key (columns (train_frame Ex.st_unseen_half))) /\
    (forall ct,
       lookup_col "q_NA" (columns (train_frame Ex.st_unseen_half)) = Some ct ->
       lookup_col "q_NA" (columns (train_frame st')) =
       Some (series_map (labels_dict ct) ct)) /\
    (has_column (train_frame Ex.st_unseen_half) "q_NA" = false ->
     st' = Ex.st_unseen_half).
Proof.
  apply (@encode_loop_missing_column Ex.st_unseen_half "q_NA" ["r"%string]).
  right. reflexivity.
Defined.

(** ** The encoder: running the loop again *)

Lemma assign_col_same key s cols :
  lookup_col key cols = Some s -> assign_col key s cols = cols.
Proof.
  induction cols as [| [k c] rest IH]; simpl; [discriminate |].
  destruct (String.eqb k key) eqn:E.
  - intros [= ->]. reflexivity.
  - intro H. now rewrite IH.
Qed.

Lemma filter_map_value (p : value -> bool) (f : value -> value) l :
  filter p (map f l) = map f (filter (fun x => p (f x)) l).
Proof.
  induction l as [| x r IH]; simpl; [reflexivity |].
  destruct (p (f x)); simpl; now rewrite IH.
Qed.

Lemma value_eqb_inj (f : value -> value) (x v : value) :
  (f x = f v -> x = v) ->
  value_eqb (f x) (f v) = value_eqb x v.
Proof.
  intro Hinj. destruct (value_eqb x v) eqn:E.
  - apply value_eqb_eq in E. subst. apply value_eqb_refl.
  - apply value_eqb_neq. apply value_eqb_neq in E. tauto.
Qed.

Lemma first_seen_map_inj (f : value -> value) (c : Series) :
  (forall x y, In x c -> In y c -> f x = f y -> x = y) ->
  first_seen (map f c) = map f (first_seen c).
Proof.
  induction c as [| v r IH]; intro Hinj; simpl; [reflexivity |].
  f_equal. rewrite IH by (intros x y Hx Hy; apply Hinj; now right).
  rewrite filter_map_value. f_equal.
  apply filter_ext_in. intros x Hx. f_equal.
  apply value_eqb_inj. apply Hinj; [right | left; reflexivity].
  now apply first_seen_In.
Qed.

Lemma first_index_map_inj (f : value -> value) (v : value) (l : list value) :
  forall start,
    (forall x, In x l -> f x = f v -> x = v) ->
    first_index (f v) (map f l) start = first_index v l start.
Proof.
  induction l as [| x r IH]; intros start Hinj; simpl; [reflexivity |].
  rewrite value_eqb_inj by (apply Hinj; now left).
  destruct (value_eqb x v); [reflexivity |].
  apply IH. intros y Hy. apply Hinj. now right.
Qed.

Lemma map_value_inj (c : Series) (x y : value) :
  In x c -> In y c ->
  map_value (labels_dict c) x = map_value (labels_dict c) y -> x = y.
Proof.
  intros Hx Hy Heq.
  destruct (map_value_seen c x Hx) as [n [_ [Hn Hxn]]].
  destruct (map_value_seen c y Hy) as [m [_ [Hm Hym]]].
  rewrite Hxn, Hym in Heq. injection Heq as Heq.
  apply Nat2Z.inj in Heq. subst m. congruence.
Qed.

(** A code of the training column is its own code; [NaN] stays [NaN]. *)
Lemma map_value_again_seen (c : Series) (v : value) :
  In v c ->
  map_value (labels_dict (series_map (labels_dict c) c))
    (map_value (labels_dict c) v) =
  map_value (labels_dict c) v.
Proof.
  intro Hv. set (f := map_value (labels_dict c)).
  unfold map_value at 1. rewrite labels_dict_get.
  unfold series_map. fold f.
  rewrite first_seen_map_inj by (intros x y; apply map_value_inj).
  rewrite first_index_map_inj.
  - unfold f, map_value. rewrite labels_dict_get.
    destruct (map_value_seen c v Hv) as [n [_ [_ Hval]]].
    unfold map_value in Hval. rewrite labels_dict_get in Hval.
    destruct (first_index v (first_seen c) 0); [reflexivity | discriminate].
  - intros x Hx. apply map_value_inj; [now apply first_seen_In | exact Hv].
Qed.

Lemma map_value_again_NaN (c : Series) :
  map_value (labels_dict (series_map (labels_dict c) c)) NaN = NaN.
Proof.
  apply map_value_unseen. unfold series_map. rewrite in_map_iff.
  intros [v [Hv Hin]].
  destruct (map_value_seen c v Hin) as [n [_ [_ Hval]]]. congruence.
Qed.

Lemma series_map_again (c s : Series) :
  series_map (labels_dict (series_map (labels_dict c) c))
    (series_map (labels_dict c) s) =
  series_map (labels_dict c) s.
Proof.
  unfold series_map at 1 3 4. rewrite map_map. apply map_ext.
  intro v. destruct (mem v c) eqn:E.
  - apply map_value_again_seen.
    clear - E. induction c as [| x r IH]; simpl in *; [discriminate |].
    apply orb_true_iff in E. destruct E as [E | E].
    + left. now apply value_eqb_eq.
    + right. now apply IH.
  - rewrite (map_value_unseen c v); [apply map_value_again_NaN |].
    clear - E. induction c as [| x r IH]; simpl in *; [tauto |].
    apply orb_false_iff in E. destruct E as [E1 E2].
    intros [H | H]; [| now apply IH].
    subst x. now rewrite value_eqb_refl in E1.
Qed.

Lemma encode_col_fixed (col : string) (st : store) (e e' : Series) :
  lookup_col col (columns (train_frame st)) = Some e ->
  lookup_col col (columns (test_frame st)) = Some e' ->
  series_map (labels_dict e) e = e ->
  series_map (labels_dict e) e' = e' ->
  encode_col col st = (st, Done tt).
Proof.
  intros Ht He Fe Fe'. rewrite (encode_col_done col st Ht He).
  unfold encoded. rewrite Fe, Fe'.
  rewrite (assign_col_same _ _ Ht), (assign_col_same _ _ He).
  now destruct st as [[it ct] [ie ce]].
Qed.

Lemma encode_loop_fixed (cols : list string) (st : store) :
  (forall col, In col cols ->
     exists e e',
       lookup_col col (columns (train_frame st)) = Some e /\
       lookup_col col (columns (test_frame st)) = Some e' /\
       series_map (labels_dict e) e = e /\
       series_map (labels_dict e) e' = e') ->
  encode_loop cols st = (st, Done tt).
Proof.
  induction cols as [| col rest IH]; intro H; simpl; [reflexivity |].
  destruct (H col (or_introl eq_refl)) as [e [e' [Ht [He [Fe Fe']]]]].
  unfold bind. rewrite (encode_col_fixed col st Ht He Fe Fe').
  apply IH. intros c Hc. apply H. now right.
Qed.

(** X9. Running the loop of cell 12 a second time, on the frames the
    first run left, changes nothing: codes are encoded as themselves
    and [NaN] stays [NaN], so the second run returns with the same
    frames. *)
Theorem encode_loop_rerun
  (st : store) (cols : list string)
  (Hnd : NoDup cols)
  (Hhas : forall col, In col cols ->
            has_column (train_frame st) col = true /\
            has_column (test_frame st) col = true) :
  encode_loop cols (fst (encode_loop cols st)) = encode_loop cols st.
Proof.
  destruct (encode_loop_spec st Hnd Hhas) as [st' [Hrun [_ [_ [_ Henc]]]]].
  rewrite Hrun. cbn [fst]. apply encode_loop_fixed.
  intros col Hin.
  destruct (Hhas col Hin) as [Ht He]. unfold has_column in Ht, He.
  destruct (lookup_col col (columns (train_frame st))) as [ct |] eqn:Et;
    [| discriminate].
  destruct (lookup_col col (columns (test_frame st))) as [ce |] eqn:Ee;
    [| discriminate].
  destruct (Henc col ct ce Hin Et Ee) as [H1 H2].
  exists (series_map (labels_dict ct) ct), (series_map (labels_dict ct) ce).
  repeat split; auto using series_map_again.
Qed.

Lemma encode_loop_rerun_witness :
  encode_loop ["q_NA"%string]
    (fst (encode_loop ["q_NA"%string] Ex.st_unseen)) =
  encode_loop ["q_NA"%string] Ex.st_unseen.
Proof.
  apply (@encode_loop_rerun Ex.st_unseen ["q_NA"%string]).
  - repeat constructor. simpl. tauto.
  - intros col [<- | []]. split; reflexivity.
Defined.

(** ** The encoder: counting what the test frame brought new *)

Lemma mem_In (v : value) (l : list value) : mem v l = true <-> In v l.
Proof.
  induction l as [| x r IH]; simpl.
  - split; [discriminate | contradiction].
  - rewrite orb_true_iff, IH, value_eqb_eq. reflexivity.
Qed.

Lemma mem_notin (v : value) (l : list value) : mem v l = false <-> ~ In v l.
Proof.
  rewrite <- mem_In. destruct (mem v l); split; intro H; congruence.
Qed.

Lemma isnull_map_value (c : Series) (v : value) :
  isnull (map_value (labels_dict c) v) = negb (mem v c).
Proof.
  destruct (mem v c) eqn:E.
  - apply mem_In in E.
    destruct (map_value_seen c v E) as [n [_ [_ Hval]]]. now rewrite Hval.
  - apply mem_notin in E. now rewrite map_value_unseen.
Qed.

(** X10. After the loop of cell 12, [isnull().sum()] of a test feature
    column is the number of test rows whose value does not occur in the
    training column, and [isnull().sum()] of the training feature
    column is 0. *)
Theorem encode_loop_null_count_is_unseen_count
  (st : store) (cols : list string)
  (Hnd : NoDup cols)
  (Hhas : forall col, In col cols ->
            has_column (train_frame st) col = true /\
            has_column (test_frame st) col = true) :
  exists st',
    encode_loop cols st = (st', Done tt) /\
    forall col ct ce, In col cols ->
      lookup_col col (columns (train_frame st)) = Some ct ->
      lookup_col col (columns (test_frame st)) = Some ce ->
      entry col (isnull_sum (test_frame st')) =
        Some (bool_sum (map (fun v => negb (mem v ct)) ce)) /\
      entry col (isnull_sum (train_frame st')) = Some 0%Z.
Proof.
  destruct (encode_loop_spec st Hnd Hhas) as [st' [Hrun [_ [_ [_ Henc]]]]].
  exists st'. split; [exact Hrun |].
  intros col ct ce Hin Hct Hce.
  destruct (Henc col ct ce Hin Hct Hce) as [H1 H2].
  rewrite !entry_isnull_sum, H1, H2. simpl.
  unfold series_isnull, series_map. rewrite !map_map. split.
  - do 2 f_equal. apply map_ext. intro v. apply isnull_map_value.
  - f_equal.
    assert (G : forall s, (forall v, In v s -> In v ct) ->
              bool_sum (map (fun x => isnull (map_value (labels_dict ct) x)) s)
              = 0%Z).
    { induction s as [| v r IH]; intro Hs; simpl; [reflexivity |].
      rewrite isnull_map_value.
      rewrite (proj2 (mem_In v ct)) by (apply Hs; now left).
      simpl. apply IH. intros x Hx. apply Hs. now right. }
    apply G. auto.
Qed.

Lemma encode_loop_null_count_is_unseen_count_witness :
  exists st',
    encode_loop ["q_NA"%string] Ex.st_unseen = (st', Done tt) /\
    forall col ct ce, In col ["q_NA"%string] ->
      lookup_col col (columns (train_frame Ex.st_unseen)) = Some ct ->
      lookup_col col (columns (test_frame Ex.st_unseen)) = Some ce ->
      entry col (isnull_sum (test_frame st')) =
        Some (bool_sum (map (fun v => negb (mem v ct)) ce)) /\
      entry col (isnull_sum (train_frame st')) = Some 0%Z.
Proof.
  apply (@encode_loop_null_count_is_unseen_count
           Ex.st_unseen ["q_NA"%string]).
  - repeat constructor. simpl. tauto.
  - intros col [<- | []]. split; reflexivity.
Defined.

(** ** The counts of cell 10 *)

Lemma dict_get_tabulate (g : value -> Z) (l : list value) (k : value) :
  dict_get (map (fun x => (x, g x)) l) k =
  if mem k l then Some (g k) else None.
Proof.
  induction l as [| x r IH]; simpl; [reflexivity |].
  destruct (value_eqb x k) eqn:E; simpl; [| exact IH].
  apply value_eqb_eq in E. now subst.
Qed.

Lemma mem_filter (p : value -> bool) (k : value) (l : list value) :
  mem k (filter p l) = p k && mem k l.
Proof.
  induction l as [| x r IH]; simpl; [now rewrite andb_false_r |].
  destruct (value_eqb x k) eqn:E.
  - apply value_eqb_eq in E. subst x.
    destruct (p k); simpl; [now rewrite value_eqb_refl | exact IH].
  - destruct (p x); simpl; [rewrite E |]; exact IH.
Qed.

Lemma mem_first_seen (k : value) (s : Series) :
  mem k (first_seen s) = mem k s.
Proof.
  destruct (mem k s) eqn:E.
  - apply mem_In, first_seen_In, mem_In. exact E.
  - apply mem_notin. rewrite first_seen_In. now apply mem_notin.
Qed.

Lemma groupby_count_get (s : Series) (k : value) :
  dict_get (groupby_count s) k =
  if negb (isnull k) && mem k s then Some (count_eq k s) else None.
Proof.
  unfold groupby_count. rewrite dict_get_tabulate, mem_filter.
  now rewrite unique_first_seen, mem_first_seen.
Qed.

Lemma indicator_total (l : list value) (v : value) :
  NoDup l ->
  dict_total (map (fun k => (k, if value_eqb v k then 1 else 0)%Z) l) =
  (if mem v l then 1 else 0)%Z.
Proof.
  induction l as [| x r IH]; intro Hnd; simpl; [reflexivity |].
  inversion Hnd as [| ? ? Hx Hr]; subst. rewrite (IH Hr).
  rewrite (value_eqb_sym x v).
  destruct (value_eqb v x) eqn:E; simpl; [| reflexivity].
  apply value_eqb_eq in E. subst x.
  now rewrite (proj2 (mem_notin v r) Hx).
Qed.

Lemma count_total_cons (l : list value) (v : value) (r : Series) :
  dict_total (map (fun k => (k, count_eq k (v :: r))) l) =
  (dict_total (map (fun k => (k, if value_eqb v k then 1 else 0)%Z) l) +
   dict_total (map (fun k => (k, count_eq k r)) l))%Z.
Proof.
  induction l as [| x l IH]; simpl in *; [reflexivity |].
  rewrite IH. lia.
Qed.

Lemma count_total (l : list value) (s : Series) :
  NoDup l ->
  dict_total (map (fun k => (k, count_eq k s)) l) =
  bool_sum (map (fun v => mem v l) s).
Proof.
  intro Hnd. induction s as [| v r IH].
  - simpl. clear Hnd. induction l as [| x l IH]; simpl; [reflexivity |].
    now rewrite IH.
  - rewrite count_total_cons, (indicator_total v Hnd), IH. reflexivity.
Qed.

Lemma bool_sum_not_null (s : Series) :
  bool_sum (map (fun v => negb (isnull v)) s) =
  (Z.of_nat (length s) - bool_sum (series_isnull s))%Z.
Proof.
  unfold series_isnull.
  induction s as [| v r IH]; [reflexivity |].
  cbn [map bool_sum length]. rewrite IH.
  destruct (isnull v); simpl negb; cbv iota; lia.
Qed.

(** The entries add up to the rows whose label is not missing. *)
Lemma groupby_count_total (s : Series) :
  dict_total (groupby_count s) =
  (Z.of_nat (length s) - bool_sum (series_isnull s))%Z.
Proof.
  unfold groupby_count. rewrite count_total.
  - rewrite <- bool_sum_not_null. f_equal.
    apply map_ext_in. intros v Hv.
    rewrite mem_filter, unique_first_seen, mem_first_seen.
    rewrite (proj2 (mem_In v s) Hv). apply andb_true_r.
  - apply NoDup_filter. rewrite unique_first_seen. apply first_seen_NoDup.
Qed.

Lemma value_eqb_derived_cell (k v : value) :
  k <> Missing -> isnull k = false ->
  value_eqb (if isnull v then Missing else v) k = value_eqb v k.
Proof.
  intros Hk Hnull. destruct (isnull v) eqn:Ev; [| reflexivity].
  rewrite (proj2 (value_eqb_neq Missing k)) by congruence.
  destruct v; try discriminate. destruct k; try discriminate; reflexivity.
Qed.

Lemma count_eq_derive_other (k : value) (c : Series) :
  k <> Missing -> isnull k = false ->
  count_eq k (derive c) = count_eq k c.
Proof.
  intros Hk Hnull. rewrite derive_map.
  induction c as [| v r IH]; [reflexivity |].
  cbn [map count_eq]. now rewrite IH, value_eqb_derived_cell.
Qed.

Lemma count_eq_derive_Missing (c : Series) :
  count_eq Missing (derive c) =
  (bool_sum (series_isnull c) + count_eq Missing c)%Z.
Proof.
  rewrite derive_map. unfold series_isnull.
  induction c as [| v r IH]; [reflexivity |].
  cbn [map count_eq bool_sum]. rewrite IH.
  destruct (isnull v) eqn:Ev.
  - rewrite value_eqb_refl.
    assert (E : value_eqb v Missing = false) by (now destruct v).
    rewrite E. lia.
  - lia.
Qed.

Lemma mem_derive_other (k : value) (c : Series) :
  k <> Missing -> isnull k = false ->
  mem k (derive c) = mem k c.
Proof.
  intros Hk Hnull. rewrite derive_map.
  induction c as [| v r IH]; [reflexivity |].
  cbn [map mem]. now rewrite IH, value_eqb_derived_cell.
Qed.

Lemma mem_derive_Missing (c : Series) :
  In NaN c \/ In Missing c -> mem Missing (derive c) = true.
Proof.
  intro H. apply mem_In. rewrite derive_map. apply in_map_iff.
  destruct H as [H | H]; [exists NaN | exists Missing]; auto.
Qed.

(** X11. The counts that cell 10 plots, for a column and the column
    [impute_na] derives from it.  The entries of the original column
    add up to the rows that are not missing; those of the derived
    column add up to all rows.  Every label other than ["Missing"] has
    the same entry in both.  If the column has a missing cell or the
    label ["Missing"], the derived column has an entry ["Missing"] that
    counts the missing cells and the cells already labelled
    ["Missing"]. *)
Theorem impute_na_group_counts
  (st : store) (variable : string) (ct ce : Series)
  (Htrain : lookup_col variable (columns (train_frame st)) = Some ct)
  (Htest : lookup_col variable (columns (test_frame st)) = Some ce) :
  exists st',
    impute_na X_train X_test variable st = (st', Done tt) /\
    forall (df : ref) (c : Series),
      lookup_col variable (columns (deref df st)) = Some c ->
      exists d,
        lookup_col (NA_name variable) (columns (deref df st')) = Some d /\
        dict_total (groupby_count c) =
          (Z.of_nat (length c) - bool_sum (series_isnull c))%Z /\
        dict_total (groupby_count d) = Z.of_nat (length c) /\
        (forall k, k <> Missing ->
           dict_get (groupby_count d) k = dict_get (groupby_count c) k) /\
        (In NaN c \/ In Missing c ->
           dict_get (groupby_count d) Missing =
           Some (bool_sum (series_isnull c) + count_eq Missing c)%Z).
Proof.
  eexists. split; [apply (impute_na_done st variable Htrain Htest) |].
  assert (G : forall c,
            dict_total (groupby_count c) =
              (Z.of_nat (length c) - bool_sum (series_isnull c))%Z /\
            dict_total (groupby_count (derive c)) = Z.of_nat (length c) /\
            (forall k, k <> Missing ->
               dict_get (groupby_count (derive c)) k =
               dict_get (groupby_count c) k) /\
            (In NaN c \/ In Missing c ->
               dict_get (groupby_count (derive c)) Missing =
               Some (bool_sum (series_isnull c) + count_eq Missing c)%Z)).
  { intro c. split; [apply groupby_count_total |]. split.
    { rewrite groupby_count_total, derive_no_null, derive_length. lia. }
    split.
    - intros k Hk. rewrite !groupby_count_get.
      destruct (isnull k) eqn:E; [reflexivity |].
      now rewrite mem_derive_other, count_eq_derive_other.
    - intro H. rewrite groupby_count_get, (mem_derive_Missing c H).
      simpl. now rewrite count_eq_derive_Missing. }
  intros [|] c Hc; cbn [deref train_frame test_frame] in *.
  - assert (c = ct) by congruence. subst c.
    exists (derive ct). split; [apply imputed_lookup_NA | apply G].
  - assert (c = ce) by congruence. subst c.
    exists (derive ce). split; [apply imputed_lookup_NA | apply G].
Qed.

Lemma impute_na_group_counts_witness :
  exists st',
    impute_na X_train X_test "q" Ex.st = (st', Done tt) /\
    forall (df : ref) (c : Series),
      lookup_col "q" (columns (deref df Ex.st)) = Some c ->
      exists d,
        lookup_col (NA_name "q") (columns (deref df st')) = Some d /\
        dict_total (groupby_count c) =
          (Z.of_nat (length c) - bool_sum (series_isnull c))%Z /\
        dict_total (groupby_count d) = Z.of_nat (length c) /\
        (forall k, k <> Missing ->
           dict_get (groupby_count d) k = dict_get (groupby_count c) k) /\
        (In NaN c \/ In Missing c ->
           dict_get (groupby_count d) Missing =
           Some (bool_sum (series_isnull c) + count_eq Missing c)%Z).
Proof.
  apply (@impute_na_group_counts Ex.st "q"
           [Str "Gd"; NaN; Str "TA"] [Str "TA"; NaN]); reflexivity.
Defined.
